(** * Activity roster service: the sign-up backend of src/app.py and
      src/database.py, embedded in Rocq.

    The embedding follows the two source files:
    - [Activity] is the ORM row of database.py, with the roster kept as a JSON
      text in [participants_json];
    - [Json.dumps] and [Json.loads] are the two calls of Python's json module
      the row accessors make, restricted to what the accessors are typed for
      (a list of str);
    - [signup_for_activity], [unregister_from_activity] and [get_activities]
      are the three handlers of app.py, with the session's table passed
      explicitly and HTTPException as a result value. *)

From Stdlib Require Import NArith ZArith Ascii String Lia.
From stdpp Require Import base option list gmap strings.

Local Open Scope N_scope.

(** ** Python strings

    A Python [str] is a sequence of code points; [ord] gives a natural
    number.  JSON texts, activity names and student identifiers are all
    values of this type. *)

Abbreviation str := (list N).

(** An ASCII literal of the source as a [str]. *)
Definition lit (s : string) : str := N_of_ascii <$> list_ascii_of_string s.

(** Unicode scalar values: every code point except the surrogates.  Text
    that crosses the HTTP boundary (UTF-8 percent-decoding of the query
    string) or the SQLite boundary (UTF-8 storage) consists of scalar values
    only. *)
Definition is_high_surrogate (c : N) : bool := (0xd800 <=? c) && (c <=? 0xdbff).
Definition is_low_surrogate (c : N) : bool := (0xdc00 <=? c) && (c <=? 0xdfff).
Definition is_scalar (c : N) : bool :=
  (c <=? 0x10ffff) && negb ((0xd800 <=? c) && (c <=? 0xdfff)).

Definition text (s : str) : Prop := forallb is_scalar s = true.

(** ** json.dumps on a list of str

    The default encoder: [ensure_ascii=True], items separated by a comma
    and a space. *)

Module Json.

(** The format [{0:04x}] at [n < 0x10000]: four lower-case digits. *)
Definition hexdigit (d : N) : N := if d <? 10 then 48 + d else 87 + d.

Definition hex4 (n : N) : str :=
  [hexdigit (n / 4096 mod 16); hexdigit (n / 256 mod 16);
   hexdigit (n / 16 mod 16); hexdigit (n mod 16)].

(** A backslash, the letter u and the four digits. *)
Definition u_escape (n : N) : str := 92 :: 117 :: hex4 n.

(** [ESCAPE_ASCII]: the characters that are replaced, namely the backslash,
    the double quote and everything outside the printable range from space
    to tilde; every other character is copied. *)
Definition ESCAPE_ASCII (c : N) : bool :=
  (c =? 92) || (c =? 34) || negb ((32 <=? c) && (c <=? 126)).

(** [ESCAPE_DCT]: the short escapes, and [\u00XX] for the other controls. *)
Definition ESCAPE_DCT (c : N) : option str :=
  if c =? 92 then Some [92; 92]            (* backslash *)
  else if c =? 34 then Some [92; 34]       (* double quote *)
  else if c =? 8 then Some [92; 98]        (* \b *)
  else if c =? 12 then Some [92; 102]      (* \f *)
  else if c =? 10 then Some [92; 110]      (* \n *)
  else if c =? 13 then Some [92; 114]      (* \r *)
  else if c =? 9 then Some [92; 116]       (* \t *)
  else if c <? 0x20 then Some (u_escape c)
  else None.

(** The [replace] callback of [py_encode_basestring_ascii]. *)
Definition replace (c : N) : str :=
  match ESCAPE_DCT c with
  | Some e => e
  | None =>
      if c <? 0x10000 then u_escape c
      else
        let n := c - 0x10000 in
        let s1 := N.lor 0xd800 (N.land (N.shiftr n 10) 0x3ff) in
        let s2 := N.lor 0xdc00 (N.land n 0x3ff) in
        u_escape s1 ++ u_escape s2
  end.

Definition escape_char (c : N) : str :=
  if ESCAPE_ASCII c then replace c else [c].

(** [ESCAPE_ASCII.sub(replace, s)] *)
Fixpoint escape (s : str) : str :=
  match s with
  | [] => []
  | c :: s' => escape_char c ++ escape s'
  end.

Definition encode_basestring_ascii (s : str) : str :=
  34 :: escape s ++ [34].

(** [item_separator.join(items)] *)
Fixpoint join_items (items : list str) : str :=
  match items with
  | [] => []
  | [x] => x
  | x :: rest => x ++ 44 :: 32 :: join_items rest
  end.

Definition dumps (l : list str) : str :=
  91 :: join_items (encode_basestring_ascii <$> l) ++ [93].

(** ** json.loads, for a document that is an array of strings *)

Definition hexval (c : N) : option N :=
  if (48 <=? c) && (c <=? 57) then Some (c - 48)
  else if (97 <=? c) && (c <=? 102) then Some (c - 87)
  else if (65 <=? c) && (c <=? 70) then Some (c - 55)
  else None.

(** [_decode_uXXXX]: four hexadecimal digits, or a JSONDecodeError. *)
Definition decode_uXXXX (h1 h2 h3 h4 : N) : option N :=
  d1 ← hexval h1; d2 ← hexval h2; d3 ← hexval h3; d4 ← hexval h4;
  Some (((d1 * 16 + d2) * 16 + d3) * 16 + d4).

(** The [BACKSLASH] table of the decoder. *)
Definition BACKSLASH (esc : N) : option N :=
  if esc =? 34 then Some 34
  else if esc =? 92 then Some 92
  else if esc =? 47 then Some 47
  else if esc =? 98 then Some 8
  else if esc =? 102 then Some 12
  else if esc =? 110 then Some 10
  else if esc =? 114 then Some 13
  else if esc =? 116 then Some 9
  else None.

(** [scanstring] in strict mode, started after the opening quote: the decoded
    string and the text after the closing quote.  [None] stands for the
    JSONDecodeError cases (unterminated string, raw control character,
    invalid escape). *)
Fixpoint scanstring (s : str) : option (str * str) :=
  match s with
  | [] => None
  | c :: s1 =>
      if c =? 34 then Some ([], s1)
      else if c =? 92 then
        match s1 with
        | [] => None
        | esc :: s2 =>
            if esc =? 117 then
              match s2 with
              | h1 :: h2 :: h3 :: h4 :: r =>
                  match decode_uXXXX h1 h2 h3 h4 with
                  | None => None
                  | Some uni =>
                      let single :=
                        match scanstring r with
                        | Some (v, rest) => Some (uni :: v, rest)
                        | None => None
                        end in
                      if is_high_surrogate uni then
                        match r with
                        | b :: u :: r1 =>
                            if (b =? 92) && (u =? 117) then
                              match r1 with
                              | g1 :: g2 :: g3 :: g4 :: r2 =>
                                  match decode_uXXXX g1 g2 g3 g4 with
                                  | None => None
                                  | Some uni2 =>
                                      if is_low_surrogate uni2 then
                                        let joined :=
                                          0x10000 +
                                          N.lor (N.shiftl (uni - 0xd800) 10)
                                                (uni2 - 0xdc00) in
                                        match scanstring r2 with
                                        | Some (v, rest) =>
                                            Some (joined :: v, rest)
                                        | None => None
                                        end
                                      else single
                                  end
                              | _ => None
                              end
                            else single
                        | _ => single
                        end
                      else single
                  end
              | _ => None
              end
            else
              match BACKSLASH esc with
              | None => None
              | Some ch =>
                  match scanstring s2 with
                  | Some (v, rest) => Some (ch :: v, rest)
                  | None => None
                  end
              end
        end
      else if c <? 0x20 then None
      else
        match scanstring s1 with
        | Some (v, rest) => Some (c :: v, rest)
        | None => None
        end
  end.

(** [WHITESPACE]: space, tab, line feed, carriage return. *)
Definition is_ws (c : N) : bool :=
  (c =? 32) || (c =? 9) || (c =? 10) || (c =? 13).

Fixpoint skip_ws (s : str) : str :=
  match s with
  | c :: s' => if is_ws c then skip_ws s' else s
  | [] => []
  end.

(** The loop of [JSONArray], entered at the first character of a value.
    The accessor is typed [ListType[str]]: an element that does not open
    with a quote is reported like a malformed document.  Each round reads
    at least the opening quote, so the length of the text bounds the number
    of rounds. *)
Fixpoint JSONArray_loop (fuel : nat) (s : str) : option (list str * str) :=
  match fuel with
  | O => None
  | S fuel' =>
      match s with
      | [] => None
      | c :: s1 =>
          if c =? 34 then
            match scanstring s1 with
            | None => None
            | Some (value, s2) =>
                match skip_ws s2 with
                | [] => None
                | d :: s3 =>
                    if d =? 93 then Some ([value], s3)
                    else if d =? 44 then
                      match JSONArray_loop fuel' (skip_ws s3) with
                      | Some (values, rest) => Some (value :: values, rest)
                      | None => None
                      end
                    else None
                end
            end
          else None
      end
  end.

(** [JSONArray], started after the opening bracket. *)
Definition JSONArray (s : str) : option (list str * str) :=
  match skip_ws s with
  | [] => None
  | c :: s1 =>
      if c =? 93 then Some ([], s1)
      else JSONArray_loop (length (c :: s1)) (c :: s1)
  end.

(** [JSONDecoder.decode]: leading white space, one value, trailing white
    space, and nothing more (the Extra data error otherwise). *)
Definition loads (s : str) : option (list str) :=
  match skip_ws s with
  | [] => None
  | c :: s1 =>
      if c =? 91 then
        match JSONArray s1 with
        | None => None
        | Some (values, rest) =>
            match skip_ws rest with
            | [] => Some values
            | _ :: _ => None
            end
        end
      else None
  end.

End Json.


(** ** database.py *)

(** The row of table [activities]. *)
Record Activity := {
  id : Z;
  name : str;
  description : str;
  schedule : str;
  max_participants : Z;
  participants_json : str
}.

(** The table as the session sees it: the rows in primary-key order.  A row
    is addressed by its position, which stands for the identity the ORM
    keeps between the object a query returned and the row a commit
    writes. *)
Abbreviation Table := (list Activity).

(** [Activity.get_participants]; [None] is an uncaught JSONDecodeError. *)
Definition get_participants (self : Activity) : option (list str) :=
  Json.loads (participants_json self).

(** [Activity.set_participants] *)
Definition set_participants (self : Activity) (participants : list str)
  : Activity :=
  {| id := id self;
     name := name self;
     description := description self;
     schedule := schedule self;
     max_participants := max_participants self;
     participants_json := Json.dumps participants |}.

(** The values a response dictionary holds. *)
Inductive value :=
  | VStr (s : str)
  | VInt (n : Z)
  | VList (l : list str).

(** [Activity.to_dict] *)
Definition to_dict (self : Activity) : option (gmap string value) :=
  participants ← get_participants self;
  Some (<["description"%string := VStr (description self)]>
       (<["schedule"%string := VStr (schedule self)]>
       (<["max_participants"%string := VInt (max_participants self)]>
       (<["participants"%string := VList participants]> ∅)))).

(** The entries of [default_activities] in [init_db]. *)
Record activity_data := {
  d_name : string;
  d_description : string;
  d_schedule : string;
  d_max_participants : Z;
  d_participants : list string
}.

Definition default_activities : list activity_data :=
  [ {| d_name := "Chess Club";
       d_description := "Learn strategies and compete in chess tournaments";
       d_schedule := "Fridays, 3:30 PM - 5:00 PM";
       d_max_participants := 12;
       d_participants := ["michael@mergington.edu"; "daniel@mergington.edu"] |};
    {| d_name := "Programming Class";
       d_description :=
         "Learn programming fundamentals and build software projects";
       d_schedule := "Tuesdays and Thursdays, 3:30 PM - 4:30 PM";
       d_max_participants := 20;
       d_participants := ["emma@mergington.edu"; "sophia@mergington.edu"] |};
    {| d_name := "Gym Class";
       d_description := "Physical education and sports activities";
       d_schedule := "Mondays, Wednesdays, Fridays, 2:00 PM - 3:00 PM";
       d_max_participants := 30;
       d_participants := ["john@mergington.edu"; "olivia@mergington.edu"] |};
    {| d_name := "Soccer Team";
       d_description := "Join the school soccer team and compete in matches";
       d_schedule := "Tuesdays and Thursdays, 4:00 PM - 5:30 PM";
       d_max_participants := 22;
       d_participants := ["liam@mergington.edu"; "noah@mergington.edu"] |};
    {| d_name := "Basketball Team";
       d_description := "Practice and play basketball with the school team";
       d_schedule := "Wednesdays and Fridays, 3:30 PM - 5:00 PM";
       d_max_participants := 15;
       d_participants := ["ava@mergington.edu"; "mia@mergington.edu"] |};
    {| d_name := "Art Club";
       d_description := "Explore your creativity through painting and drawing";
       d_schedule := "Thursdays, 3:30 PM - 5:00 PM";
       d_max_participants := 15;
       d_participants := ["amelia@mergington.edu"; "harper@mergington.edu"] |};
    {| d_name := "Drama Club";
       d_description := "Act, direct, and produce plays and performances";
       d_schedule := "Mondays and Wednesdays, 4:00 PM - 5:30 PM";
       d_max_participants := 20;
       d_participants := ["ella@mergington.edu"; "scarlett@mergington.edu"] |};
    {| d_name := "Math Club";
       d_description :=
         "Solve challenging problems and participate in math competitions";
       d_schedule := "Tuesdays, 3:30 PM - 4:30 PM";
       d_max_participants := 10;
       d_participants := ["james@mergington.edu"; "benjamin@mergington.edu"] |};
    {| d_name := "Debate Team";
       d_description := "Develop public speaking and argumentation skills";
       d_schedule := "Fridays, 4:00 PM - 5:30 PM";
       d_max_participants := 12;
       d_participants := ["charlotte@mergington.edu"; "henry@mergington.edu"] |}
  ].

(** The body of the seeding loop: the row built from one entry, with the
    primary key the engine assigns on insertion. *)
Definition new_activity (key : nat) (activity_data : activity_data)
  : Activity :=
  set_participants
    {| id := Z.of_nat (S key);
       name := lit (d_name activity_data);
       description := lit (d_description activity_data);
       schedule := lit (d_schedule activity_data);
       max_participants := d_max_participants activity_data;
       participants_json := lit "[]" |}
    (lit <$> d_participants activity_data).

(** [init_db]: seeding is skipped when the table already has a row. *)
Definition init_db (db : Table) : Table :=
  if (0 <? length db)%nat then db
  else db ++ imap new_activity default_activities.

(** The state after the first start-up. *)
Definition seeded : Table := init_db [].

(** [startup_event] of app.py: the start-up hook runs [init_db]. *)
Definition startup_event (db : Table) : Table := init_db db.

(** ** app.py *)

(** What a handler hands back to the framework: the returned message, a
    raised HTTPException, or the JSONDecodeError that escapes from
    [get_participants] on a malformed column. *)
Inductive response :=
  | Return (message : str)
  | HTTPException (status_code : Z) (detail : str)
  | JSONDecodeError.

(** [db.query(Activity).filter(Activity.name == activity_name).first()] *)
Definition query_first (db : Table) (activity_name : str)
  : option (nat * Activity) :=
  list_find (λ activity, name activity = activity_name) db.

(** [email in participants] *)
Definition contains (email : str) (participants : list str) : bool :=
  bool_decide (email ∈ participants).

(** [participants.remove(email)]: the first occurrence is dropped. *)
Fixpoint remove (email : str) (participants : list str) : list str :=
  match participants with
  | [] => []
  | p :: rest => if decide (p = email) then rest else p :: remove email rest
  end.

(** [get_activities]: the dictionary comprehension over all rows, in row
    order.  The table is handed back as it was received: the handler has no
    commit. *)
Fixpoint comprehension (activities : list Activity)
    (acc : gmap str (gmap string value))
  : option (gmap str (gmap string value)) :=
  match activities with
  | [] => Some acc
  | activity :: rest =>
      d ← to_dict activity;
      comprehension rest (<[name activity := d]> acc)
  end.

Definition get_activities (db : Table)
  : Table * option (gmap str (gmap string value)) :=
  (db, comprehension db ∅).

(** [signup_for_activity] *)
Definition signup_for_activity (activity_name email : str) (db : Table)
  : Table * response :=
  match query_first db activity_name with
  | None => (db, HTTPException 404 (lit "Activity not found"))
  | Some (i, activity) =>
      match get_participants activity with
      | None => (db, JSONDecodeError)
      | Some participants =>
          if contains email participants then
            (db, HTTPException 400 (lit "Student is already signed up"))
          else if (Z.of_nat (length participants)
                     >=? max_participants activity)%Z then
            (db, HTTPException 400 (lit "Activity is at maximum capacity"))
          else
            (<[i := set_participants activity (participants ++ [email])]> db,
             Return (lit "Signed up " ++ email ++ lit " for " ++ activity_name))
      end
  end.

(** [unregister_from_activity] *)
Definition unregister_from_activity (activity_name email : str) (db : Table)
  : Table * response :=
  match query_first db activity_name with
  | None => (db, HTTPException 404 (lit "Activity not found"))
  | Some (i, activity) =>
      match get_participants activity with
      | None => (db, JSONDecodeError)
      | Some participants =>
          if negb (contains email participants) then
            (db, HTTPException 400
                   (lit "Student is not signed up for this activity"))
          else
            (<[i := set_participants activity (remove email participants)]> db,
             Return (lit "Unregistered " ++ email ++ lit " from "
                       ++ activity_name))
      end
  end.


(** ** The service as a whole *)

(** [participants.count(email)] *)
Definition count (email : str) (participants : list str) : nat :=
  length (filter (λ p, p = email) participants).

(** The roster of a row: what [get_participants] returns, a list of student
    identifiers. *)
Definition roster (activity : Activity) (participants : list str) : Prop :=
  get_participants activity = Some participants ∧ Forall text participants.

(** The roster of the activity of a given name, read from the table. *)
Definition participants_of (db : Table) (activity_name : str)
  : option (list str) :=
  query_first db activity_name ≫= λ found, get_participants found.2.

(** The two mutating calls of the interface. *)
Inductive call :=
  | Enroll (activity_name email : str)
  | Withdraw (activity_name email : str).

Definition call_email (c : call) : str :=
  match c with
  | Enroll _ email => email
  | Withdraw _ email => email
  end.

Definition handle (c : call) (db : Table) : Table * response :=
  match c with
  | Enroll activity_name email => signup_for_activity activity_name email db
  | Withdraw activity_name email =>
      unregister_from_activity activity_name email db
  end.

(** The table after a sequence of calls, whatever each call answered. *)
Definition run (calls : list call) (db : Table) : Table :=
  foldl (λ db c, (handle c db).1) db calls.

(** The states the service reaches from the seeded table; the student
    identifiers of the calls are text. *)
Definition reachable (db : Table) : Prop :=
  ∃ calls, Forall (λ c, text (call_email c)) calls ∧ db = run calls seeded.

(** The invariants of the data model on one row: the roster is within
    capacity and names nobody twice. *)
Definition valid (activity : Activity) : Prop :=
  ∃ participants,
    roster activity participants ∧
    (Z.of_nat (length participants) ≤ max_participants activity)%Z ∧
    NoDup participants.

(** The activity a call addresses. *)
Definition call_name (c : call) : str :=
  match c with
  | Enroll activity_name _ => activity_name
  | Withdraw activity_name _ => activity_name
  end.

(** The columns no handler assigns to. *)
Definition columns (activity : Activity) : Z * str * str * str * Z :=
  (id activity, name activity, description activity, schedule activity,
   max_participants activity).

(** The code points a Python [str] can hold, surrogates included. *)
Definition pystr (s : str) : Prop := Forall (λ c, c ≤ 0x10ffff) s.

(** What a [str] reads back as after [json.dumps] and [json.loads]: each
    high surrogate directly followed by a low one has become the code point
    the pair stands for.  On text this is the identity. *)
Fixpoint normalize (s : str) : str :=
  match s with
  | [] => []
  | c :: s1 =>
      match s1 with
      | [] => [c]
      | d :: s2 =>
          if is_high_surrogate c && is_low_surrogate d then
            0x10000 + N.lor (N.shiftl (c - 0xd800) 10) (d - 0xdc00)
              :: normalize s2
          else c :: normalize s1
      end
  end.

(** The printable ASCII range, space to tilde. *)
Definition printable (c : N) : Prop := 32 ≤ c ∧ c ≤ 126.

(** The result of the decoder with one more character in front. *)
Definition push (c : N) (r : option (str * str)) : option (str * str) :=
  match r with
  | Some (v, rest) => Some (c :: v, rest)
  | None => None
  end.

(** The states reached from the seeded table when the identifiers of the
    calls are arbitrary Python strings. *)
Definition reachable_any (db : Table) : Prop :=
  ∃ calls, Forall (λ c, pystr (call_email c)) calls ∧ db = run calls seeded.

(** A row whose roster can be read and is within capacity. *)
Definition within_capacity (activity : Activity) : Prop :=
  ∃ participants,
    get_participants activity = Some participants ∧
    Forall pystr participants ∧
    (Z.of_nat (length participants) ≤ max_participants activity)%Z.

(** What a call does once its row is found: the row to commit, if any, and
    the answer.  These are the bodies of the two handlers after the
    existence check. *)
Definition written (c : call) (activity : Activity)
  : option Activity * response :=
  match get_participants activity with
  | None => (None, JSONDecodeError)
  | Some participants =>
      match c with
      | Enroll activity_name email =>
          if contains email participants then
            (None, HTTPException 400 (lit "Student is already signed up"))
          else if (Z.of_nat (length participants)
                     >=? max_participants activity)%Z then
            (None, HTTPException 400 (lit "Activity is at maximum capacity"))
          else
            (Some (set_participants activity (participants ++ [email])),
             Return (lit "Signed up " ++ email ++ lit " for " ++ activity_name))
      | Withdraw activity_name email =>
          if negb (contains email participants) then
            (None, HTTPException 400
                     (lit "Student is not signed up for this activity"))
          else
            (Some (set_participants activity (remove email participants)),
             Return (lit "Unregistered " ++ email ++ lit " from "
                       ++ activity_name))
      end
  end.

(** A table whose first row has a column that is not JSON. *)
Definition corrupt : Table :=
  [ {| id := 1; name := lit "Broken"; description := lit "Bad column";
       schedule := lit "Never"; max_participants := 5;
       participants_json := lit "[oops" |} ].

(** ** Sample rows

    Two small tables used to exercise the capacity boundary, and a list of
    identifiers that needs every branch of the encoder. *)

Definition solo : Activity :=
  {| id := 1; name := lit "Solo"; description := lit "One seat";
     schedule := lit "Mondays"; max_participants := 1;
     participants_json := lit "[]" |}.

Definition duo : Activity :=
  {| id := 1; name := lit "Duo"; description := lit "Two seats";
     schedule := lit "Mondays"; max_participants := 2;
     participants_json := Json.dumps [lit "a@e.edu"; lit "b@e.edu"] |}.

Definition tricky : list str :=
  [lit "o'brien+tag@e.edu";
   [34; 92; 8; 12; 10; 13; 9; 1; 127; 233; 0x20ac; 0x1f600]; []].

Definition sample_calls : list call :=
  [Enroll (lit "Chess Club") (lit "x@e.edu");
   Enroll (lit "Chess Club") (lit "x@e.edu");
   Withdraw (lit "Math Club") (lit "james@mergington.edu");
   Enroll (lit "Unknown Club") (lit "y@e.edu")].

(** * Properties *)

(** ** The JSON round trip *)

Example dumps_two :
  Json.dumps [lit "a@b"; lit "c"] =
  lit "[" ++ 34 :: lit "a@b" ++ 34 :: lit ", " ++ 34 :: lit "c" ++ 34 :: lit "]".
Proof. reflexivity. Qed.

Example loads_with_spaces :
  Json.loads (lit " [ " ++ 34 :: lit "a\u0040b" ++ 34 :: lit " ,"
                ++ 34 :: 34 :: lit " ] ")
  = Some [lit "a@b"; []].
Proof. reflexivity. Qed.

Example loads_unterminated : Json.loads (lit "[" ++ 34 :: lit "a]") = None.
Proof. reflexivity. Qed.

Module JsonFacts.
Import Json.

(** Linear arithmetic over [N] with divisions by constants. *)
Local Ltac div_lia := zify; Z.to_euclidean_division_equations; lia.

Lemma hexval_hexdigit d : d < 16 → hexval (hexdigit d) = Some d.
Proof.
  intros Hd.
  assert (d ∈ N.of_nat <$> seq 0 16) as Hin.
  { apply list_elem_of_fmap. exists (N.to_nat d). split; [lia|].
    apply elem_of_seq. lia. }
  vm_compute in Hin.
  repeat (apply elem_of_cons in Hin as [->|Hin]; [reflexivity|]).
  by apply elem_of_nil in Hin.
Qed.

Lemma decode_hex4 n :
  n < 0x10000 →
  decode_uXXXX (hexdigit (n / 4096 mod 16)) (hexdigit (n / 256 mod 16))
               (hexdigit (n / 16 mod 16)) (hexdigit (n mod 16)) = Some n.
Proof.
  intros Hn. unfold decode_uXXXX.
  rewrite !hexval_hexdigit by (apply N.mod_lt; lia).
  cbn [mbind option_bind]. f_equal.
  div_lia.
Qed.

(** Bits below a shift are free: or-ing them in is an addition. *)
Lemma lor_shiftl_low a k x :
  x < 2 ^ k → N.lor (N.shiftl a k) x = a * 2 ^ k + x.
Proof.
  intros Hx.
  assert (N.land (N.shiftl a k) x = 0) as Hland.
  { apply N.bits_inj. intros i. rewrite N.land_spec, N.bits_0.
    destruct (N.lt_ge_cases i k) as [Hlt|Hge].
    - by rewrite N.shiftl_spec_low.
    - rewrite <- (N.mod_small x (2 ^ k)) by done.
      rewrite N.mod_pow2_bits_high by done. apply andb_false_r. }
  rewrite <- N.lxor_lor, <- N.add_nocarry_lxor by done.
  by rewrite N.shiftl_mul_pow2.
Qed.

Lemma land_0x3ff x : N.land x 0x3ff = x mod 1024.
Proof. change 0x3ff with (N.ones 10). by rewrite N.land_ones. Qed.

(** The two halves the encoder writes for a code point above the basic
    plane, and what the decoder joins them to. *)
Lemma surrogate_pair c :
  0x10000 ≤ c → c ≤ 0x10ffff →
  let n := c - 0x10000 in
  let s1 := N.lor 0xd800 (N.land (N.shiftr n 10) 0x3ff) in
  let s2 := N.lor 0xdc00 (N.land n 0x3ff) in
  s1 < 0x10000 ∧ s2 < 0x10000 ∧
  is_high_surrogate s1 = true ∧ is_low_surrogate s2 = true ∧
  0x10000 + N.lor (N.shiftl (s1 - 0xd800) 10) (s2 - 0xdc00) = c.
Proof.
  intros Hlo Hhi n s1 s2.
  assert (n = c - 0x10000) as Hn by done. clearbody n.
  assert (n / 1024 < 1024) as Hx
    by div_lia.
  assert (n mod 1024 < 1024) as Hy by (apply N.mod_lt; done).
  assert (s1 = 0xd800 + n / 1024) as ->.
  { subst s1. rewrite land_0x3ff, N.shiftr_div_pow2.
    change 0xd800 with (N.shiftl 54 10) at 1.
    rewrite lor_shiftl_low by (apply N.mod_lt; done).
    change (2 ^ 10) with 1024. by rewrite N.mod_small. }
  assert (s2 = 0xdc00 + n mod 1024) as ->.
  { subst s2. rewrite land_0x3ff.
    change 0xdc00 with (N.shiftl 55 10) at 1.
    by rewrite lor_shiftl_low by (apply N.mod_lt; done). }
  replace (0xd800 + n / 1024 - 0xd800) with (n / 1024) by div_lia.
  replace (0xdc00 + n mod 1024 - 0xdc00) with (n mod 1024) by div_lia.
  rewrite lor_shiftl_low by done. change (2 ^ 10) with 1024.
  unfold is_high_surrogate, is_low_surrogate.
  rewrite !andb_true_iff, !N.leb_le. div_lia.
Qed.

(** One unfolding of [scanstring] at a Unicode escape. *)
Lemma scanstring_u h1 h2 h3 h4 r uni :
  decode_uXXXX h1 h2 h3 h4 = Some uni →
  is_high_surrogate uni = false →
  scanstring (92 :: 117 :: h1 :: h2 :: h3 :: h4 :: r) =
  match scanstring r with
  | Some (v, rest) => Some (uni :: v, rest)
  | None => None
  end.
Proof. intros Hd Hs. cbn [scanstring]. cbn [N.eqb Pos.eqb]. by rewrite Hd, Hs. Qed.

(** One unfolding of [scanstring] at a surrogate pair. *)
Lemma scanstring_pair h1 h2 h3 h4 g1 g2 g3 g4 r uni uni2 :
  decode_uXXXX h1 h2 h3 h4 = Some uni →
  decode_uXXXX g1 g2 g3 g4 = Some uni2 →
  is_high_surrogate uni = true →
  is_low_surrogate uni2 = true →
  scanstring (92 :: 117 :: h1 :: h2 :: h3 :: h4 ::
              92 :: 117 :: g1 :: g2 :: g3 :: g4 :: r) =
  match scanstring r with
  | Some (v, rest) =>
      Some (0x10000 + N.lor (N.shiftl (uni - 0xd800) 10) (uni2 - 0xdc00) :: v,
            rest)
  | None => None
  end.
Proof.
  intros Hd Hd2 Hs Hs2. cbn [scanstring]. cbn [N.eqb Pos.eqb andb].
  by rewrite Hd, Hs, Hd2, Hs2.
Qed.

Lemma scalar_not_high c :
  is_scalar c = true → is_high_surrogate c = false.
Proof.
  unfold is_scalar, is_high_surrogate.
  rewrite andb_true_iff, negb_true_iff, !andb_false_iff, !N.leb_gt, N.leb_le.
  lia.
Qed.

(** What the encoder writes for one character, the decoder reads back as
    that character. *)
Lemma scanstring_escape_char c t :
  is_scalar c = true →
  scanstring (escape_char c ++ t) =
  match scanstring t with
  | Some (v, rest) => Some (c :: v, rest)
  | None => None
  end.
Proof.
  intros Hc. pose proof (scalar_not_high c Hc) as Hnh.
  unfold escape_char, ESCAPE_ASCII.
  destruct (c =? 92) eqn:E92; [apply N.eqb_eq in E92 as ->; reflexivity|].
  destruct (c =? 34) eqn:E34; [apply N.eqb_eq in E34 as ->; reflexivity|].
  cbn [orb].
  destruct ((32 <=? c) && (c <=? 126)) eqn:Hprint; cbn [negb].
  - apply andb_true_iff in Hprint as [Hlo _]. apply N.leb_le in Hlo.
    cbn [app scanstring]. rewrite E34, E92.
    by rewrite (proj2 (N.ltb_ge c 0x20)).
  - unfold replace, ESCAPE_DCT. rewrite E92, E34.
    destruct (c =? 8) eqn:E8; [apply N.eqb_eq in E8 as ->; reflexivity|].
    destruct (c =? 12) eqn:E12; [apply N.eqb_eq in E12 as ->; reflexivity|].
    destruct (c =? 10) eqn:E10; [apply N.eqb_eq in E10 as ->; reflexivity|].
    destruct (c =? 13) eqn:E13; [apply N.eqb_eq in E13 as ->; reflexivity|].
    destruct (c =? 9) eqn:E9; [apply N.eqb_eq in E9 as ->; reflexivity|].
    destruct (c <? 0x20) eqn:Hctl.
    { apply N.ltb_lt in Hctl. unfold u_escape, hex4. cbn [app].
      apply scanstring_u; [apply decode_hex4; lia|done]. }
    destruct (c <? 0x10000) eqn:Hbmp.
    { apply N.ltb_lt in Hbmp. unfold u_escape, hex4. cbn [app].
      apply scanstring_u; [by apply decode_hex4|done]. }
    apply N.ltb_ge in Hbmp.
    assert (c ≤ 0x10ffff) as Hmax.
    { unfold is_scalar in Hc. apply andb_true_iff in Hc as [Hc _].
      by apply N.leb_le. }
    destruct (surrogate_pair c Hbmp Hmax) as (H1 & H2 & Hhigh & Hlow & Hjoin).
    cbv zeta. unfold u_escape, hex4. cbn [app].
    erewrite scanstring_pair;
      [|by apply decode_hex4|by apply decode_hex4|done|done].
    by rewrite Hjoin.
Qed.

(** A quoted string is read back in full, up to its closing quote. *)
Lemma scanstring_escape s rest :
  text s → scanstring (escape s ++ 34 :: rest) = Some (s, rest).
Proof.
  unfold text. induction s as [|c s IH]; intros Hs; [reflexivity|].
  cbn [forallb] in Hs. apply andb_true_iff in Hs as [Hc Hs].
  cbn [escape]. rewrite <- app_assoc, scanstring_escape_char by done.
  by rewrite IH.
Qed.

Lemma skip_ws_no_ws c s : is_ws c = false → skip_ws (c :: s) = c :: s.
Proof. intros H. cbn [skip_ws]. by rewrite H. Qed.

Lemma join_items_cons x l :
  l ≠ [] → join_items (x :: l) = x ++ 44 :: 32 :: join_items l.
Proof. by destruct l. Qed.

(** The loop of the array parser reads back the items the encoder joined. *)
Lemma JSONArray_loop_join l : ∀ fuel rest,
  l ≠ [] → Forall text l → (length l ≤ fuel)%nat →
  JSONArray_loop fuel (join_items (encode_basestring_ascii <$> l) ++ 93 :: rest)
  = Some (l, rest).
Proof.
  induction l as [|x l IH]; intros fuel rest Hne Hall Hfuel; [done|].
  apply Forall_cons in Hall as [Hx Hall].
  destruct fuel as [|fuel]; [cbn in Hfuel; lia|].
  cbn [length] in Hfuel.
  destruct (decide (l = [])) as [->|Hl].
  - cbn [fmap list_fmap join_items]. unfold encode_basestring_ascii.
    cbn [app JSONArray_loop N.eqb Pos.eqb].
    rewrite <- app_assoc. cbn [app].
    rewrite scanstring_escape by done. reflexivity.
  - rewrite fmap_cons, join_items_cons by (by destruct l).
    unfold encode_basestring_ascii at 1.
    cbn [app JSONArray_loop N.eqb Pos.eqb].
    rewrite <- !app_assoc. cbn [app].
    rewrite scanstring_escape by done.
    rewrite skip_ws_no_ws by done. cbn [N.eqb Pos.eqb].
    destruct l as [|y l']; [done|].
    assert (skip_ws (32 :: join_items (encode_basestring_ascii <$> y :: l')
                       ++ 93 :: rest)
            = join_items (encode_basestring_ascii <$> y :: l') ++ 93 :: rest)
      as ->.
    { destruct l'; reflexivity. }
    rewrite IH; [done|done|done|lia].
Qed.

Lemma join_items_length l tail :
  (length l ≤ length (join_items (encode_basestring_ascii <$> l) ++ tail))%nat.
Proof.
  induction l as [|x l IH]; [cbn; lia|].
  destruct l as [|y l'].
  - cbn. lia.
  - rewrite fmap_cons, join_items_cons by done.
    rewrite <- app_assoc. rewrite length_app. cbn [app length].
    cbn [length] in IH. lia.
Qed.

(** [json.loads(json.dumps(l))] gives [l] back when the strings are text. *)
Lemma loads_dumps l : Forall text l → loads (dumps l) = Some l.
Proof.
  intros Hall. unfold loads, dumps.
  rewrite skip_ws_no_ws by done. cbn [N.eqb Pos.eqb].
  destruct l as [|x l']; [reflexivity|].
  unfold JSONArray.
  assert (∃ t, join_items (encode_basestring_ascii <$> x :: l') ++ [93]
               = 34 :: t) as [t Ht].
  { destruct l'; eexists; reflexivity. }
  pose proof (join_items_length (x :: l') [93]) as Hlen.
  rewrite Ht in Hlen |- *.
  rewrite skip_ws_no_ws by done. cbn [N.eqb Pos.eqb].
  rewrite <- Ht. rewrite JSONArray_loop_join; [done|done|done|].
  by rewrite Ht.
Qed.

(** *** The array loop is total

    [scanstring] consumes at least the closing quote, so a budget of one
    round per character of the text is never used up: any larger budget
    gives the same answer. *)

Lemma scanstring_shorter s : ∀ v rest,
  scanstring s = Some (v, rest) → (length rest < length s)%nat.
Proof.
  induction s as [s IH] using (induction_ltof1 _ (@length N)).
  unfold ltof in IH. intros v rest.
  assert (∀ t c v rest, (length t < length s)%nat →
            match scanstring t with
            | Some (v', rest') => Some (c :: v', rest')
            | None => None
            end = Some (v, rest) → (length rest < length s)%nat) as Hrec.
  { intros t c v0 rest0 Hlt Hscan.
    destruct (scanstring t) as [[v' rest']|] eqn:Ht; [|done].
    simplify_eq. apply IH in Ht; [lia|done]. }
  destruct s as [|c s1]; [done|]. cbn [scanstring].
  destruct (c =? 34). { intros [= _ ->]. cbn. lia. }
  destruct (c =? 92).
  - destruct s1 as [|esc s2]; [done|].
    destruct (esc =? 117).
    + destruct s2 as [|h1 [|h2 [|h3 [|h4 r]]]]; try done.
      destruct (decode_uXXXX h1 h2 h3 h4) as [uni|]; [|done].
      cbv zeta.
      destruct (is_high_surrogate uni);
        [|apply Hrec; cbn [length]; lia].
      destruct r as [|b [|u r1]]; try (apply Hrec; cbn [length]; lia).
      destruct ((b =? 92) && (u =? 117));
        [|apply Hrec; cbn [length]; lia].
      destruct r1 as [|g1 [|g2 [|g3 [|g4 r2]]]]; try done.
      destruct (decode_uXXXX g1 g2 g3 g4) as [uni2|]; [|done].
      destruct (is_low_surrogate uni2); apply Hrec; cbn [length]; lia.
    + destruct (BACKSLASH esc) as [ch|]; [|done].
      apply Hrec. cbn [length]. lia.
  - destruct (c <? 32); [done|]. apply Hrec. cbn [length]. lia.
Qed.

Lemma skip_ws_length s : (length (skip_ws s) ≤ length s)%nat.
Proof.
  induction s as [|c s IH]; [done|]. cbn [skip_ws].
  destruct (is_ws c); cbn [length]; lia.
Qed.

(** The fuel of the array loop never runs out before the text does. *)
Lemma JSONArray_loop_fuel fuel1 : ∀ fuel2 s,
  (length s ≤ fuel1)%nat → (length s ≤ fuel2)%nat →
  JSONArray_loop fuel1 s = JSONArray_loop fuel2 s.
Proof.
  induction fuel1 as [|fuel1 IH]; intros fuel2 s H1 H2.
  { destruct s; [|cbn in H1; lia]. by destruct fuel2. }
  destruct fuel2 as [|fuel2].
  { destruct s; [done|cbn in H2; lia]. }
  cbn [JSONArray_loop]. destruct s as [|c s1]; [done|].
  destruct (c =? 34); [|done].
  destruct (scanstring s1) as [[value s2]|] eqn:Hscan; [|done].
  apply scanstring_shorter in Hscan.
  pose proof (skip_ws_length s2) as Hws.
  destruct (skip_ws s2) as [|d s3]; [done|].
  destruct (d =? 93); [done|]. destruct (d =? 44); [|done].
  pose proof (skip_ws_length s3) as Hws3. cbn [length] in *.
  rewrite (IH fuel2 (skip_ws s3)) by lia. done.
Qed.

(** Outside [text] the round trip is not exact: a high surrogate directly
    followed by a low one is written as two escapes, which the decoder joins
    into one code point.  Such a sequence is not Unicode text and crosses
    neither the HTTP nor the SQLite boundary, which is why the student
    identifiers of the claims below are [text]. *)
Remark loads_joins_surrogates :
  loads (dumps [[0xd83d; 0xde00]]) = Some [[0x1f600]].
Proof. reflexivity. Qed.

End JsonFacts.

(** ** Table and roster lemmas *)

Example seeded_chess :
  (query_first seeded (lit "Chess Club")) ≫= (λ p, get_participants p.2)
  = Some [lit "michael@mergington.edu"; lit "daniel@mergington.edu"].
Proof. vm_compute. reflexivity. Qed.

Section handlers.

Implicit Types (db : Table) (activity : Activity) (email : str).
Implicit Types (participants : list str).

Lemma text_lit s : text (lit s).
Proof.
  unfold text, lit. induction s as [|a s IH]; [done|].
  cbn [list_ascii_of_string fmap list_fmap forallb].
  apply andb_true_iff; split; [|exact IH].
  pose proof (N_ascii_bounded a) as Ha.
  unfold is_scalar. rewrite andb_true_iff, negb_true_iff, andb_false_iff.
  rewrite N.leb_le, N.leb_gt. lia.
Qed.

Lemma get_set_participants activity participants :
  Forall text participants →
  get_participants (set_participants activity participants) = Some participants.
Proof. apply JsonFacts.loads_dumps. Qed.

Lemma roster_set_participants activity participants :
  Forall text participants →
  roster (set_participants activity participants) participants.
Proof. intros H. split; [by apply get_set_participants|done]. Qed.

Lemma contains_true email participants :
  contains email participants = true ↔ email ∈ participants.
Proof. unfold contains. apply bool_decide_eq_true. Qed.

Lemma contains_false email participants :
  contains email participants = false ↔ email ∉ participants.
Proof. unfold contains. apply bool_decide_eq_false. Qed.

Lemma query_first_None db activity_name :
  activity_name ∉ name <$> db → query_first db activity_name = None.
Proof.
  intros Hn. apply list_find_None, Forall_forall. intros a Ha Heq.
  apply Hn, list_elem_of_fmap. by exists a.
Qed.

Lemma query_first_lookup db activity_name i activity :
  query_first db activity_name = Some (i, activity) →
  db !! i = Some activity ∧ name activity = activity_name.
Proof. intros (? & ? & _)%list_find_Some. done. Qed.

(** The row a commit writes is the row the next query finds. *)
Lemma query_first_insert db activity_name i activity activity' :
  query_first db activity_name = Some (i, activity) →
  name activity' = activity_name →
  query_first (<[i := activity']> db) activity_name = Some (i, activity').
Proof.
  intros (Hi & Hname & Hleast)%list_find_Some Hname'.
  apply list_find_Some. split_and!.
  - apply list_lookup_insert_eq. by eapply lookup_lt_Some.
  - done.
  - intros j b Hj Hlt. rewrite list_lookup_insert_ne in Hj by lia.
    by eapply Hleast.
Qed.

Lemma remove_notin email participants :
  email ∉ participants → remove email participants = participants.
Proof.
  induction participants as [|p l IH]; [done|].
  intros [Hne Hl]%not_elem_of_cons. cbn [remove].
  rewrite decide_False by done. by rewrite IH.
Qed.

(** With no duplicate in the list, dropping the first occurrence leaves
    exactly the other entries, in their order. *)
Lemma remove_filter email participants :
  NoDup participants →
  remove email participants = filter (λ p, p ≠ email) participants.
Proof.
  induction 1 as [|p l Hp Hl IH]; [done|]. cbn [remove].
  rewrite filter_cons. destruct (decide (p = email)) as [->|Hne].
  - rewrite decide_False by (by intros []).
    rewrite <- IH. by rewrite remove_notin.
  - rewrite decide_True by done. by rewrite IH.
Qed.

Lemma remove_sublist email participants :
  sublist (remove email participants) participants.
Proof.
  induction participants as [|p l IH]; [done|]. cbn [remove].
  case_decide; [by apply sublist_cons|by apply sublist_skip].
Qed.

Lemma remove_length email participants :
  email ∈ participants →
  S (length (remove email participants)) = length participants.
Proof.
  induction participants as [|p l IH]; [by intros ?%elem_of_nil|].
  intros Hin. cbn [remove]. case_decide as Hp; [done|].
  apply elem_of_cons in Hin as [->|Hin]; [done|].
  cbn [length]. by rewrite IH.
Qed.

Lemma count_fresh email participants :
  email ∉ participants → count email (participants ++ [email]) = 1%nat.
Proof.
  intros Hn. unfold count. rewrite filter_app, length_app.
  rewrite filter_cons, decide_True by done.
  replace (filter (λ p, p = email) participants) with (@nil str); [done|].
  induction participants as [|p l IH]; [done|].
  apply not_elem_of_cons in Hn as [Hne Hl].
  rewrite filter_cons_False by done. by apply IH.
Qed.

(** *** The four outcomes of [signup_for_activity] *)

Lemma signup_not_found db activity_name email :
  query_first db activity_name = None →
  signup_for_activity activity_name email db
  = (db, HTTPException 404 (lit "Activity not found")).
Proof. intros H. unfold signup_for_activity. by rewrite H. Qed.

Lemma signup_duplicate db activity_name email i activity participants :
  query_first db activity_name = Some (i, activity) →
  get_participants activity = Some participants →
  email ∈ participants →
  signup_for_activity activity_name email db
  = (db, HTTPException 400 (lit "Student is already signed up")).
Proof.
  intros Hq Hp Hin. unfold signup_for_activity. rewrite Hq, Hp.
  by rewrite (proj2 (contains_true _ _)).
Qed.

Lemma signup_full db activity_name email i activity participants :
  query_first db activity_name = Some (i, activity) →
  get_participants activity = Some participants →
  email ∉ participants →
  (max_participants activity ≤ Z.of_nat (length participants))%Z →
  signup_for_activity activity_name email db
  = (db, HTTPException 400 (lit "Activity is at maximum capacity")).
Proof.
  intros Hq Hp Hin Hfull. unfold signup_for_activity. rewrite Hq, Hp.
  rewrite (proj2 (contains_false _ _)) by done.
  by rewrite (proj2 (Z.geb_le _ _)).
Qed.

Lemma signup_ok db activity_name email i activity participants :
  query_first db activity_name = Some (i, activity) →
  get_participants activity = Some participants →
  email ∉ participants →
  (Z.of_nat (length participants) < max_participants activity)%Z →
  signup_for_activity activity_name email db
  = (<[i := set_participants activity (participants ++ [email])]> db,
     Return (lit "Signed up " ++ email ++ lit " for " ++ activity_name)).
Proof.
  intros Hq Hp Hin Hroom. unfold signup_for_activity. rewrite Hq, Hp.
  rewrite (proj2 (contains_false _ _)) by done.
  destruct (Z.geb_spec (Z.of_nat (length participants))
              (max_participants activity)); [lia|done].
Qed.

(** *** The three outcomes of [unregister_from_activity] *)

Lemma unregister_not_found db activity_name email :
  query_first db activity_name = None →
  unregister_from_activity activity_name email db
  = (db, HTTPException 404 (lit "Activity not found")).
Proof. intros H. unfold unregister_from_activity. by rewrite H. Qed.

Lemma unregister_absent db activity_name email i activity participants :
  query_first db activity_name = Some (i, activity) →
  get_participants activity = Some participants →
  email ∉ participants →
  unregister_from_activity activity_name email db
  = (db, HTTPException 400 (lit "Student is not signed up for this activity")).
Proof.
  intros Hq Hp Hin. unfold unregister_from_activity. rewrite Hq, Hp.
  by rewrite (proj2 (contains_false _ _)).
Qed.

Lemma unregister_ok db activity_name email i activity participants :
  query_first db activity_name = Some (i, activity) →
  get_participants activity = Some participants →
  email ∈ participants →
  unregister_from_activity activity_name email db
  = (<[i := set_participants activity (remove email participants)]> db,
     Return (lit "Unregistered " ++ email ++ lit " from " ++ activity_name)).
Proof.
  intros Hq Hp Hin. unfold unregister_from_activity. rewrite Hq, Hp.
  by rewrite (proj2 (contains_true _ _)).
Qed.

End handlers.

(** ** Invariants of the reachable states *)

Section invariants.

Implicit Types (db : Table) (activity : Activity) (email : str).

Lemma valid_new_activity key data :
  NoDup (lit <$> d_participants data) →
  (Z.of_nat (length (d_participants data)) ≤ d_max_participants data)%Z →
  valid (new_activity key data).
Proof.
  intros Hnd Hlen. exists (lit <$> d_participants data). split_and!.
  - apply roster_set_participants, Forall_fmap, Forall_forall.
    intros s _. apply text_lit.
  - by rewrite length_fmap.
  - done.
Qed.

Lemma seeded_valid : Forall valid seeded.
Proof.
  apply Forall_forall. intros activity Hin.
  apply elem_of_lookup_imap_1 in Hin as (key & data & -> & Hdata).
  apply list_elem_of_lookup_2 in Hdata.
  assert (Forall (λ data,
            NoDup (lit <$> d_participants data) ∧
            (Z.of_nat (length (d_participants data))
               ≤ d_max_participants data)%Z) default_activities) as Hall.
  { unfold default_activities.
    repeat (apply Forall_cons; split;
            [split; [apply (bool_decide_unpack _); vm_compute; exact I
                    |cbn [d_participants d_max_participants length]; lia]|]).
    apply Forall_nil_2. }
  rewrite Forall_forall in Hall. destruct (Hall data Hdata).
  by apply valid_new_activity.
Qed.

Lemma signup_valid db activity_name email :
  text email → Forall valid db →
  Forall valid (signup_for_activity activity_name email db).1.
Proof.
  intros Hemail Hdb. unfold signup_for_activity.
  destruct (query_first db activity_name) as [[i activity]|] eqn:Hq; [|done].
  apply query_first_lookup in Hq as [Hi _].
  destruct (Forall_lookup_1 _ _ _ _ Hdb Hi) as (l & [Hl Htext] & Hlen & Hnd).
  rewrite Hl. destruct (contains email l) eqn:Hin; [done|].
  apply contains_false in Hin.
  destruct (Z.geb_spec (Z.of_nat (length l)) (max_participants activity));
    [done|].
  cbn [fst]. apply Forall_insert; [done|].
  exists (l ++ [email]). split_and!.
  - apply roster_set_participants, Forall_app. by rewrite Forall_singleton.
  - rewrite length_app. cbn. lia.
  - apply NoDup_app. split_and!; [done| |apply NoDup_singleton].
    intros x Hx ->%list_elem_of_singleton. done.
Qed.

Lemma unregister_valid db activity_name email :
  Forall valid db →
  Forall valid (unregister_from_activity activity_name email db).1.
Proof.
  intros Hdb. unfold unregister_from_activity.
  destruct (query_first db activity_name) as [[i activity]|] eqn:Hq; [|done].
  apply query_first_lookup in Hq as [Hi _].
  destruct (Forall_lookup_1 _ _ _ _ Hdb Hi) as (l & [Hl Htext] & Hlen & Hnd).
  rewrite Hl. destruct (contains email l) eqn:Hin; [|done].
  apply contains_true in Hin. cbn [negb fst].
  apply Forall_insert; [done|].
  pose proof (remove_sublist email l) as Hsub.
  exists (remove email l). split_and!.
  - apply roster_set_participants, Forall_forall. intros x Hx.
    rewrite Forall_forall in Htext. by eapply Htext, elem_of_sublist.
  - pose proof (remove_length email l Hin). cbn. lia.
  - by eapply sublist_NoDup.
Qed.

Lemma run_snoc calls c db :
  run (calls ++ [c]) db = (handle c (run calls db)).1.
Proof. unfold run. by rewrite foldl_app. Qed.

Lemma reachable_valid db : reachable db → Forall valid db.
Proof.
  intros (calls & Hcalls & ->).
  induction calls as [|c calls IH] using rev_ind; [apply seeded_valid|].
  apply Forall_app in Hcalls as [Hcalls Hc]. rewrite Forall_singleton in Hc.
  rewrite run_snoc. destruct c as [n e|n e]; cbn [handle call_email] in *.
  - apply signup_valid; [done|by apply IH].
  - apply unregister_valid. by apply IH.
Qed.

(** No call renames, adds or drops a row. *)
Lemma handle_names c db : name <$> (handle c db).1 = name <$> db.
Proof.
  assert (∀ i activity l, db !! i = Some activity →
            name <$> <[i := set_participants activity l]> db = name <$> db)
    as Hins.
  { intros i activity l Hi. rewrite list_fmap_insert. cbn [set_participants name].
    apply list_insert_id. by rewrite list_lookup_fmap, Hi. }
  destruct c as [n e|n e]; cbn [handle];
    unfold signup_for_activity, unregister_from_activity;
    (destruct (query_first db n) as [[i activity]|] eqn:Hq; [|done]);
    apply query_first_lookup in Hq as [Hi _];
    (destruct (get_participants activity) as [l|]; [|done]);
    repeat case_match; cbn [fst]; auto.
Qed.

Lemma reachable_names db : reachable db → name <$> db = name <$> seeded.
Proof.
  intros (calls & _ & ->).
  induction calls as [|c calls IH] using rev_ind; [done|].
  by rewrite run_snoc, handle_names.
Qed.

Lemma seeded_names_NoDup : NoDup (name <$> seeded).
Proof. apply (bool_decide_unpack _). vm_compute. exact I. Qed.

End invariants.

(** ** The claims about Enroll *)

Section enroll.

Implicit Types (db : Table) (activity : Activity) (email : str).
Implicit Types (participants : list str).

(** After a commit, the roster read back under the same name is the list
    that was written. *)
Lemma participants_of_insert db activity_name i activity participants :
  query_first db activity_name = Some (i, activity) →
  Forall text participants →
  participants_of (<[i := set_participants activity participants]> db)
    activity_name = Some participants.
Proof.
  intros Hq Htext. unfold participants_of.
  pose proof (query_first_lookup _ _ _ _ Hq) as [_ Hname].
  rewrite (query_first_insert db activity_name i activity
             (set_participants activity participants) Hq Hname).
  cbn [mbind option_bind snd]. by apply get_set_participants.
Qed.

(** C1. For an existing activity, a student identifier that is not on its
    roster and a roster shorter than [max_participants], Enroll succeeds;
    the roster read back afterwards is the old one followed by the
    identifier: the identifier occurs exactly once, it is the last entry,
    and the earlier entries are the old roster in its order. *)
Theorem enroll_appends db activity_name email i activity participants :
  query_first db activity_name = Some (i, activity) →
  roster activity participants →
  text email →
  email ∉ participants →
  (Z.of_nat (length participants) < max_participants activity)%Z →
  ∃ message db' participants',
    signup_for_activity activity_name email db = (db', Return message) ∧
    participants_of db' activity_name = Some participants' ∧
    count email participants' = 1%nat ∧
    last participants' = Some email ∧
    take (length participants) participants' = participants ∧
    length participants' = S (length participants).
Proof.
  intros Hq [Hget Htext] Hemail Hfresh Hroom.
  eexists _, _, (participants ++ [email]). split_and!.
  - by eapply signup_ok.
  - apply participants_of_insert; [done|].
    apply Forall_app. by rewrite Forall_singleton.
  - by apply count_fresh.
  - apply last_snoc.
  - by rewrite take_app_length.
  - rewrite length_app. cbn. lia.
Qed.

Lemma enroll_appends_witness :
  ∃ message db' participants',
    signup_for_activity (lit "Chess Club") (lit "x@e.edu") seeded
    = (db', Return message) ∧
    participants_of db' (lit "Chess Club") = Some participants' ∧
    count (lit "x@e.edu") participants' = 1%nat ∧
    last participants' = Some (lit "x@e.edu") ∧
    take 2 participants'
    = [lit "michael@mergington.edu"; lit "daniel@mergington.edu"] ∧
    length participants' = 3%nat.
Proof.
  apply (enroll_appends seeded (lit "Chess Club") (lit "x@e.edu") 0
           (new_activity 0
              {| d_name := "Chess Club";
                 d_description :=
                   "Learn strategies and compete in chess tournaments";
                 d_schedule := "Fridays, 3:30 PM - 5:00 PM";
                 d_max_participants := 12;
                 d_participants :=
                   ["michael@mergington.edu"; "daniel@mergington.edu"] |})
           [lit "michael@mergington.edu"; lit "daniel@mergington.edu"]).
  - vm_compute. reflexivity.
  - split; [vm_compute; reflexivity|].
    repeat constructor.
  - reflexivity.
  - apply (bool_decide_unpack _). vm_compute. exact I.
  - vm_compute. reflexivity.
Defined.

(** C2. For an existing activity and a student identifier not on its
    roster: when the roster's length equals [max_participants], and more
    generally whenever the roster after the append would be longer than
    [max_participants], Enroll fails with status 400 and the capacity detail
    and the table is left as it was.  The boundary is exact: with
    [max_participants = 1] and an empty roster the enrollment is accepted,
    and every further one is refused for capacity. *)
Theorem enroll_at_capacity db activity_name email i activity participants :
  query_first db activity_name = Some (i, activity) →
  get_participants activity = Some participants →
  email ∉ participants →
  (Z.of_nat (length participants) = max_participants activity →
   signup_for_activity activity_name email db
   = (db, HTTPException 400 (lit "Activity is at maximum capacity")))
  ∧
  (max_participants activity < Z.of_nat (length (participants ++ [email])) →
   signup_for_activity activity_name email db
   = (db, HTTPException 400 (lit "Activity is at maximum capacity")))%Z
  ∧
  (participants = [] → max_participants activity = 1%Z → text email →
   ∃ message db',
     signup_for_activity activity_name email db = (db', Return message) ∧
     participants_of db' activity_name = Some [email] ∧
     ∀ other, other ≠ email →
       signup_for_activity activity_name other db'
       = (db', HTTPException 400 (lit "Activity is at maximum capacity"))).
Proof.
  intros Hq Hget Hfresh. split_and!.
  - intros Hfull. eapply signup_full; [done..|lia].
  - rewrite length_app. cbn [length]. intros Hover.
    eapply signup_full; [done..|lia].
  - intros -> Hmax Hemail.
    pose proof (query_first_lookup _ _ _ _ Hq) as [_ Hname].
    eexists _, _. split_and!.
    + eapply signup_ok; [done..|cbn; lia].
    + apply participants_of_insert; [done|]. by apply Forall_singleton.
    + intros other Hother. cbn [app].
      eapply signup_full.
      * by apply (query_first_insert db activity_name i activity).
      * apply get_set_participants. by apply Forall_singleton.
      * by intros ->%list_elem_of_singleton.
      * cbn [set_participants max_participants length]. lia.
Qed.

Lemma enroll_at_capacity_witness :
  (∃ message db',
     signup_for_activity (lit "Solo") (lit "a@e.edu") [solo]
     = (db', Return message) ∧
     participants_of db' (lit "Solo") = Some [lit "a@e.edu"] ∧
     ∀ other, other ≠ lit "a@e.edu" →
       signup_for_activity (lit "Solo") other db'
       = (db', HTTPException 400 (lit "Activity is at maximum capacity")))
  ∧
  signup_for_activity (lit "Solo") (lit "b@e.edu")
    [set_participants solo [lit "a@e.edu"]]
  = ([set_participants solo [lit "a@e.edu"]],
     HTTPException 400 (lit "Activity is at maximum capacity")).
Proof.
  split.
  - apply (enroll_at_capacity [solo] (lit "Solo") (lit "a@e.edu") 0 solo []);
      [vm_compute; reflexivity|vm_compute; reflexivity|apply not_elem_of_nil
      |reflexivity|reflexivity|reflexivity].
  - apply (enroll_at_capacity [set_participants solo [lit "a@e.edu"]]
             (lit "Solo") (lit "b@e.edu") 0
             (set_participants solo [lit "a@e.edu"]) [lit "a@e.edu"]);
      [vm_compute; reflexivity|vm_compute; reflexivity
      |apply (bool_decide_unpack _); vm_compute; exact I
      |reflexivity].
Defined.

(** C3. Enroll checks existence, then membership, then capacity.  For an
    existing activity, an identifier already on the roster is answered with
    the duplicate-signup detail whatever the capacity, so also when the
    roster is full; the capacity detail is only reached for an identifier
    that is not on the roster; and a name with no row is answered 404
    whatever the identifier. *)
Theorem enroll_check_order db activity_name email i activity participants :
  query_first db activity_name = Some (i, activity) →
  get_participants activity = Some participants →
  (email ∈ participants →
   (max_participants activity ≤ Z.of_nat (length participants))%Z →
   signup_for_activity activity_name email db
   = (db, HTTPException 400 (lit "Student is already signed up")))
  ∧
  (email ∈ participants →
   signup_for_activity activity_name email db
   = (db, HTTPException 400 (lit "Student is already signed up")))
  ∧
  (email ∉ participants →
   (max_participants activity ≤ Z.of_nat (length participants))%Z →
   signup_for_activity activity_name email db
   = (db, HTTPException 400 (lit "Activity is at maximum capacity")))
  ∧
  (∀ unknown, unknown ∉ name <$> db →
   signup_for_activity unknown email db
   = (db, HTTPException 404 (lit "Activity not found"))).
Proof.
  intros Hq Hget. split_and!.
  - intros Hin _. by eapply signup_duplicate.
  - intros Hin. by eapply signup_duplicate.
  - intros Hfresh Hfull. by eapply signup_full.
  - intros unknown Hunknown. by apply signup_not_found, query_first_None.
Qed.

Lemma enroll_check_order_witness :
  signup_for_activity (lit "Duo") (lit "a@e.edu") [duo]
  = ([duo], HTTPException 400 (lit "Student is already signed up")).
Proof.
  refine (proj1 (enroll_check_order [duo] (lit "Duo") (lit "a@e.edu") 0 duo
                   [lit "a@e.edu"; lit "b@e.edu"] _ _) _ _);
    [vm_compute; reflexivity|vm_compute; reflexivity
    |apply (bool_decide_unpack _); vm_compute; exact I
    |vm_compute; discriminate].
Defined.

(** C10. Enroll does not look at the identifier itself: for an existing
    activity with a free seat whose roster does not hold the empty string,
    Enroll with the empty string succeeds and the roster read back is the
    old one followed by the empty string. *)
Theorem enroll_empty_identifier db activity_name i activity participants :
  query_first db activity_name = Some (i, activity) →
  roster activity participants →
  [] ∉ participants →
  (Z.of_nat (length participants) < max_participants activity)%Z →
  ∃ message db',
    signup_for_activity activity_name [] db = (db', Return message) ∧
    participants_of db' activity_name = Some (participants ++ [[]]).
Proof.
  intros Hq [Hget Htext] Hfresh Hroom. eexists _, _. split.
  - by eapply signup_ok.
  - apply participants_of_insert; [done|].
    apply Forall_app. by rewrite Forall_singleton.
Qed.

Lemma enroll_empty_identifier_witness :
  ∃ message db',
    signup_for_activity (lit "Math Club") [] seeded = (db', Return message) ∧
    participants_of db' (lit "Math Club")
    = Some [lit "james@mergington.edu"; lit "benjamin@mergington.edu"; []].
Proof.
  apply (enroll_empty_identifier seeded (lit "Math Club") 7
           (new_activity 7
              {| d_name := "Math Club";
                 d_description :=
                   "Solve challenging problems and participate in math competitions";
                 d_schedule := "Tuesdays, 3:30 PM - 4:30 PM";
                 d_max_participants := 10;
                 d_participants :=
                   ["james@mergington.edu"; "benjamin@mergington.edu"] |})
           [lit "james@mergington.edu"; lit "benjamin@mergington.edu"]).
  - vm_compute. reflexivity.
  - split; [vm_compute; reflexivity|repeat constructor].
  - apply (bool_decide_unpack _). vm_compute. exact I.
  - vm_compute. reflexivity.
Defined.

End enroll.

(** ** The claims about Withdraw and about unknown names *)

Section withdraw.

Implicit Types (db : Table) (activity : Activity) (email : str).
Implicit Types (participants : list str).

(** C4. For an existing activity and an identifier on its roster, Withdraw
    succeeds; the roster read back afterwards does not hold the identifier
    and is the old roster without it, the other entries in their order; a
    second Withdraw of the same identifier fails with status 400 and leaves
    the table as it was. *)
Theorem withdraw_removes db activity_name email i activity participants :
  query_first db activity_name = Some (i, activity) →
  roster activity participants →
  NoDup participants →
  email ∈ participants →
  ∃ message db' participants',
    unregister_from_activity activity_name email db = (db', Return message) ∧
    participants_of db' activity_name = Some participants' ∧
    (email ∉ participants') ∧
    participants' = filter (λ p, p ≠ email) participants ∧
    unregister_from_activity activity_name email db'
    = (db', HTTPException 400
              (lit "Student is not signed up for this activity")).
Proof.
  intros Hq [Hget Htext] Hnd Hin.
  pose proof (query_first_lookup _ _ _ _ Hq) as [_ Hname].
  assert (Forall text (remove email participants)) as Htext'.
  { apply Forall_forall. intros x Hx. rewrite Forall_forall in Htext.
    eapply Htext, elem_of_sublist; [done|apply remove_sublist]. }
  assert (email ∉ remove email participants) as Hgone.
  { rewrite remove_filter by done. intros [Hne _]%list_elem_of_filter. done. }
  eexists _, _, (remove email participants). split_and!.
  - by eapply unregister_ok.
  - by apply participants_of_insert.
  - done.
  - by apply remove_filter.
  - eapply unregister_absent.
    + by apply (query_first_insert db activity_name i activity).
    + by apply get_set_participants.
    + done.
Qed.

Lemma withdraw_removes_witness :
  ∃ message db' participants',
    unregister_from_activity (lit "Chess Club") (lit "michael@mergington.edu")
      seeded = (db', Return message) ∧
    participants_of db' (lit "Chess Club") = Some participants' ∧
    (lit "michael@mergington.edu" ∉ participants') ∧
    participants'
    = filter (λ p, p ≠ lit "michael@mergington.edu")
        [lit "michael@mergington.edu"; lit "daniel@mergington.edu"] ∧
    unregister_from_activity (lit "Chess Club") (lit "michael@mergington.edu")
      db'
    = (db', HTTPException 400
              (lit "Student is not signed up for this activity")).
Proof.
  apply (withdraw_removes seeded (lit "Chess Club")
           (lit "michael@mergington.edu") 0
           (new_activity 0
              {| d_name := "Chess Club";
                 d_description :=
                   "Learn strategies and compete in chess tournaments";
                 d_schedule := "Fridays, 3:30 PM - 5:00 PM";
                 d_max_participants := 12;
                 d_participants :=
                   ["michael@mergington.edu"; "daniel@mergington.edu"] |})
           [lit "michael@mergington.edu"; lit "daniel@mergington.edu"]).
  - vm_compute. reflexivity.
  - split; [vm_compute; reflexivity|repeat constructor].
  - apply (bool_decide_unpack _). vm_compute. exact I.
  - apply (bool_decide_unpack _). vm_compute. exact I.
Defined.

(** C6. For a name that no row carries, and any identifier, Enroll and
    Withdraw both fail with status 404, and the table handed back is the
    table received: no row is changed or added. *)
Theorem unknown_activity db activity_name email :
  activity_name ∉ name <$> db →
  signup_for_activity activity_name email db
  = (db, HTTPException 404 (lit "Activity not found")) ∧
  unregister_from_activity activity_name email db
  = (db, HTTPException 404 (lit "Activity not found")).
Proof.
  intros Hunknown%query_first_None. split.
  - by apply signup_not_found.
  - by apply unregister_not_found.
Qed.

Lemma unknown_activity_witness :
  signup_for_activity (lit "Unknown Club") (lit "y@e.edu") seeded
  = (seeded, HTTPException 404 (lit "Activity not found")) ∧
  unregister_from_activity (lit "Unknown Club") (lit "y@e.edu") seeded
  = (seeded, HTTPException 404 (lit "Activity not found")).
Proof.
  apply (unknown_activity seeded (lit "Unknown Club") (lit "y@e.edu")).
  apply (bool_decide_unpack _). vm_compute. exact I.
Defined.

End withdraw.

(** ** The claims about the reachable states *)

(** C5. In every state reached from the seeded table by Enroll and Withdraw
    calls, every row has a roster no longer than [max_participants] that
    names no identifier twice. *)
Theorem reachable_invariant (db : Table) :
  reachable db →
  ∀ activity, activity ∈ db →
    ∃ participants,
      get_participants activity = Some participants ∧
      (Z.of_nat (length participants) ≤ max_participants activity)%Z ∧
      NoDup participants.
Proof.
  intros Hreach%reachable_valid activity Hin.
  rewrite Forall_forall in Hreach.
  destruct (Hreach activity Hin) as (l & [Hget _] & Hlen & Hnd). eauto.
Qed.

Lemma reachable_invariant_witness :
  reachable (run sample_calls seeded) ∧
  ∀ activity, activity ∈ run sample_calls seeded →
    ∃ participants,
      get_participants activity = Some participants ∧
      (Z.of_nat (length participants) ≤ max_participants activity)%Z ∧
      NoDup participants.
Proof.
  assert (reachable (run sample_calls seeded)) as Hreach.
  { exists sample_calls. split; [repeat constructor|reflexivity]. }
  split; [exact Hreach|].
  exact (reachable_invariant (run sample_calls seeded) Hreach).
Defined.

(** C7. The scenario on the seeded table.  The Chess Club row has
    [max_participants = 12] and a roster of two.  Enrolling x@e.edu
    succeeds and leaves three entries, the last being x@e.edu; enrolling
    again is refused as a duplicate; withdrawing succeeds and restores the
    seeded table; withdrawing again is refused; enrolling in Unknown Club
    is answered 404. *)
Theorem chess_club_scenario :
  let chess := lit "Chess Club" in
  let x := lit "x@e.edu" in
  let original :=
    [lit "michael@mergington.edu"; lit "daniel@mergington.edu"] in
  let step1 := signup_for_activity chess x seeded in
  let step2 := signup_for_activity chess x step1.1 in
  let step3 := unregister_from_activity chess x step2.1 in
  let step4 := unregister_from_activity chess x step3.1 in
  let step5 := signup_for_activity (lit "Unknown Club") (lit "y@e.edu")
                 step4.1 in
  (max_participants <$> (snd <$> query_first seeded chess)) = Some 12%Z ∧
  participants_of seeded chess = Some original ∧
  step1.2 = Return (lit "Signed up x@e.edu for Chess Club") ∧
  participants_of step1.1 chess = Some (original ++ [x]) ∧
  step2 = (step1.1, HTTPException 400 (lit "Student is already signed up")) ∧
  step3 = (seeded, Return (lit "Unregistered x@e.edu from Chess Club")) ∧
  participants_of step3.1 chess = Some original ∧
  step4 = (seeded, HTTPException 400
                     (lit "Student is not signed up for this activity")) ∧
  step5 = (seeded, HTTPException 404 (lit "Activity not found")).
Proof. vm_compute. repeat split. Qed.

(** C9. Writing a list of student identifiers with [set_participants] and
    reading the same row with [get_participants] gives the list back; the
    other columns of the row are untouched. *)
Theorem participants_roundtrip (self : Activity) (participants : list str) :
  Forall text participants →
  get_participants (set_participants self participants) = Some participants ∧
  name (set_participants self participants) = name self ∧
  max_participants (set_participants self participants)
  = max_participants self.
Proof.
  intros Htext. split_and!; [|done..].
  unfold get_participants, set_participants. cbn [participants_json].
  by apply JsonFacts.loads_dumps.
Qed.

Lemma participants_roundtrip_witness :
  Forall text tricky ∧
  get_participants (set_participants solo tricky) = Some tricky.
Proof.
  assert (Forall text tricky) as Htext by repeat constructor.
  split; [exact Htext|].
  exact (proj1 (participants_roundtrip solo tricky Htext)).
Defined.

(** ** The claim about ListActivities *)

Section listing.

Implicit Types (db : Table) (activity : Activity).
Implicit Types (acc m : gmap str (gmap string value)).

Lemma to_dict_Some activity participants :
  get_participants activity = Some participants →
  ∃ d, to_dict activity = Some d ∧
    d !! "description"%string = Some (VStr (description activity)) ∧
    d !! "schedule"%string = Some (VStr (schedule activity)) ∧
    d !! "max_participants"%string
    = Some (VInt (max_participants activity)) ∧
    d !! "participants"%string = Some (VList participants) ∧
    dom d = ({["description"; "schedule"; "max_participants";
               "participants"]} : gset string)%string.
Proof.
  intros Hget. unfold to_dict. rewrite Hget. cbn [mbind option_bind].
  eexists. split; [reflexivity|]. split_and!; by simplify_map_eq.
Qed.

(** The comprehension over rows with distinct names: every row is found
    under its name, and the other keys are those of the accumulator. *)
Lemma comprehension_spec (l : list Activity) : ∀ acc,
  Forall (λ activity, is_Some (get_participants activity)) l →
  NoDup (name <$> l) →
  ∃ m, comprehension l acc = Some m ∧
    (∀ activity, activity ∈ l → Some <$> m !! name activity = Some (to_dict activity)) ∧
    (∀ n, n ∉ name <$> l → m !! n = acc !! n).
Proof.
  induction l as [|a l IH]; intros acc Hdec Hnd.
  { exists acc. split_and!; [done| |done]. by intros ? ?%elem_of_nil. }
  apply Forall_cons in Hdec as [[p Hp] Hdec].
  rewrite fmap_cons in Hnd. apply NoDup_cons in Hnd as [Hfresh Hnd].
  destruct (to_dict_Some a p Hp) as (d & Hd & _).
  cbn [comprehension]. rewrite Hd. cbn [mbind option_bind].
  destruct (IH (<[name a := d]> acc) Hdec Hnd) as (m & Hm & Hrows & Hrest).
  exists m. split_and!; [done| |].
  - intros b [->|Hb]%elem_of_cons; [|by apply Hrows].
    by rewrite Hrest, lookup_insert_eq, Hd.
  - intros n [Hna Hn]%not_elem_of_cons.
    by rewrite Hrest, lookup_insert_ne.
Qed.

End listing.

(** C8. In every reachable state ListActivities raises nothing, hands the
    table back as it received it, and returns a dictionary whose keys are
    the names of the stored rows; under a row's name stands a dictionary
    whose keys are exactly description, schedule, max_participants and
    participants, holding the row's columns and the roster stored in the
    row at the time of the call. *)
Theorem list_activities (db : Table) :
  reachable db →
  ∃ m,
    get_activities db = (db, Some m) ∧
    (∀ n, is_Some (m !! n) ↔ n ∈ name <$> db) ∧
    ∀ activity, activity ∈ db →
      ∃ participants d,
        get_participants activity = Some participants ∧
        m !! name activity = Some d ∧
        d !! "description"%string = Some (VStr (description activity)) ∧
        d !! "schedule"%string = Some (VStr (schedule activity)) ∧
        d !! "max_participants"%string
        = Some (VInt (max_participants activity)) ∧
        d !! "participants"%string = Some (VList participants) ∧
        dom d = ({["description"; "schedule"; "max_participants";
                   "participants"]} : gset string)%string.
Proof.
  intros Hreach.
  pose proof (reachable_valid db Hreach) as Hvalid.
  pose proof (reachable_names db Hreach) as Hnames.
  assert (Forall (λ activity, is_Some (get_participants activity)) db) as Hdec.
  { eapply Forall_impl; [exact Hvalid|].
    intros a (l & [Hl _] & _). by exists l. }
  assert (NoDup (name <$> db)) as Hnd
    by (rewrite Hnames; apply seeded_names_NoDup).
  destruct (comprehension_spec db ∅ Hdec Hnd) as (m & Hm & Hrows & Hrest).
  exists m. unfold get_activities. rewrite Hm. split_and!; [done| |].
  - intros n. split.
    + intros Hsome. destruct (decide (n ∈ name <$> db)) as [|Hn]; [done|].
      rewrite (Hrest n Hn), lookup_empty in Hsome. by destruct Hsome.
    + intros (a & -> & Ha)%list_elem_of_fmap.
      rewrite Forall_forall in Hdec. destruct (Hdec a Ha) as [p Hp].
      destruct (to_dict_Some a p Hp) as (d & Hd & _).
      specialize (Hrows a Ha). rewrite Hd in Hrows.
      destruct (m !! name a); [done|discriminate].
  - intros a Ha.
    rewrite Forall_forall in Hdec. destruct (Hdec a Ha) as [p Hp].
    destruct (to_dict_Some a p Hp) as (d & Hd & Hfields).
    exists p, d. split; [done|]. split; [|exact Hfields].
    specialize (Hrows a Ha). rewrite Hd in Hrows.
    destruct (m !! name a); by simplify_eq/=.
Qed.

Lemma list_activities_witness :
  reachable (run sample_calls seeded) ∧
  ∃ m,
    get_activities (run sample_calls seeded)
    = (run sample_calls seeded, Some m) ∧
    ∀ n, is_Some (m !! n) ↔ n ∈ name <$> run sample_calls seeded.
Proof.
  assert (reachable (run sample_calls seeded)) as Hreach.
  { exists sample_calls. split; [repeat constructor|reflexivity]. }
  split; [exact Hreach|].
  destruct (list_activities (run sample_calls seeded) Hreach)
    as (m & Hm & Hkeys & _).
  exists m. split; [exact Hm|exact Hkeys].
Defined.

(** * Further properties of the handlers *)

Section more.

Implicit Types (db : Table) (activity : Activity) (email : str).
Implicit Types (participants : list str) (c : call).

Lemma run_length calls db : length (run calls db) = length db.
Proof.
  induction calls as [|c calls IH] using rev_ind; [done|].
  rewrite run_snoc, <- IH.
  by rewrite <- (length_fmap name), handle_names, length_fmap.
Qed.

Lemma init_db_nonempty db : (0 < length (init_db db))%nat.
Proof.
  unfold init_db. destruct db as [|a db]; cbn; lia.
Qed.

(** X1. A start-up after the first one changes nothing: whatever calls were
    served since the first start-up, the start-up hook hands the table back
    as it is, rosters included. *)
Theorem restart_keeps_state db calls :
  startup_event (run calls (startup_event db)) = run calls (startup_event db).
Proof.
  unfold startup_event.
  pose proof (init_db_nonempty db) as Hpos.
  rewrite <- (run_length calls) in Hpos.
  unfold init_db at 1.
  by rewrite (proj2 (Nat.ltb_lt _ _) Hpos).
Qed.

Lemma handle_columns c db : columns <$> (handle c db).1 = columns <$> db.
Proof.
  assert (∀ i activity l, db !! i = Some activity →
            columns <$> <[i := set_participants activity l]> db
            = columns <$> db) as Hins.
  { intros i activity l Hi. rewrite list_fmap_insert.
    apply list_insert_id. by rewrite list_lookup_fmap, Hi. }
  destruct c as [n e|n e]; cbn [handle];
    unfold signup_for_activity, unregister_from_activity;
    (destruct (query_first db n) as [[i activity]|] eqn:Hq; [|done]);
    apply query_first_lookup in Hq as [Hi _];
    (destruct (get_participants activity) as [l|]; [|done]);
    repeat case_match; cbn [fst]; auto.
Qed.

(** X2. No sequence of calls adds, drops or reorders a row, and none
    changes a primary key, a name, a description, a schedule or a
    capacity: only the roster column is ever written. *)
Theorem calls_keep_columns calls db :
  columns <$> run calls db = columns <$> db.
Proof.
  induction calls as [|c calls IH] using rev_ind; [done|].
  by rewrite run_snoc, handle_columns.
Qed.

(** A commit to a row leaves the query for any other name as it was. *)
Lemma query_first_insert_other db : ∀ i activity activity' n,
  db !! i = Some activity →
  name activity' = name activity →
  name activity ≠ n →
  query_first (<[i := activity']> db) n = query_first db n.
Proof.
  unfold query_first.
  induction db as [|b db IH]; intros i a a' n Hi Hname Hn; [done|].
  destruct i as [|i]; csimpl in *.
  - simplify_eq. rewrite !decide_False by congruence. done.
  - case_decide; [done|]. by rewrite (IH i a a' n).
Qed.

Lemma handle_other c db n :
  call_name c ≠ n → query_first (handle c db).1 n = query_first db n.
Proof.
  intros Hn.
  destruct c as [m e|m e]; cbn [handle call_name] in *;
    unfold signup_for_activity, unregister_from_activity;
    (destruct (query_first db m) as [[i activity]|] eqn:Hq; [|done]);
    apply query_first_lookup in Hq as [Hi Hname];
    (destruct (get_participants activity) as [l|]; [|done]);
    repeat case_match; cbn [fst]; try done;
    apply (query_first_insert_other db i activity); (done || congruence).
Qed.

(** X3. Calls addressed to other activities do not touch an activity: the
    row found under a name, and so its roster, is the same before and after
    any sequence of calls none of which names it. *)
Theorem other_activities_untouched calls db n :
  Forall (λ c, call_name c ≠ n) calls →
  query_first (run calls db) n = query_first db n.
Proof.
  induction calls as [|c calls IH] using rev_ind; [done|].
  intros [Hcalls Hc]%Forall_app. rewrite Forall_singleton in Hc.
  rewrite run_snoc, handle_other by done. by apply IH.
Qed.

Lemma other_activities_untouched_witness :
  query_first (run sample_calls seeded) (lit "Art Club")
  = query_first seeded (lit "Art Club").
Proof.
  apply (other_activities_untouched sample_calls seeded (lit "Art Club")).
  repeat constructor; apply (bool_decide_unpack _); vm_compute; exact I.
Defined.

(** X4. A call writes only when it succeeds: whenever the answer is not the
    success message (an HTTPException or the decoding error) the table is
    handed back exactly as it was received. *)
Theorem failure_writes_nothing c db :
  (∀ message, (handle c db).2 ≠ Return message) → (handle c db).1 = db.
Proof.
  intros Hfail.
  destruct c as [n e|n e]; cbn [handle] in *;
    unfold signup_for_activity, unregister_from_activity in *;
    (destruct (query_first db n) as [[i activity]|]; [|done]);
    (destruct (get_participants activity) as [l|]; [|done]);
    repeat case_match; cbn [fst snd] in *; try done;
    exfalso; by eapply Hfail.
Qed.

Lemma failure_writes_nothing_witness :
  (handle (Enroll (lit "Chess Club") (lit "daniel@mergington.edu")) seeded).1
  = seeded ∧
  (handle (Withdraw (lit "Broken") (lit "a@e.edu")) corrupt).1 = corrupt.
Proof.
  split.
  - apply (failure_writes_nothing
             (Enroll (lit "Chess Club") (lit "daniel@mergington.edu")) seeded).
    intros message. vm_compute. discriminate.
  - apply (failure_writes_nothing
             (Withdraw (lit "Broken") (lit "a@e.edu")) corrupt).
    intros message. vm_compute. discriminate.
Defined.

End more.

(** ** How calls compose *)

Section composition.

Implicit Types (db : Table) (activity : Activity) (email : str).
Implicit Types (participants : list str) (c : call).

(** A success of [signup_for_activity] read backwards. *)
Lemma signup_Return_inv db activity_name email db' message :
  signup_for_activity activity_name email db = (db', Return message) →
  ∃ i activity participants,
    query_first db activity_name = Some (i, activity) ∧
    get_participants activity = Some participants ∧
    (email ∉ participants) ∧
    (Z.of_nat (length participants) < max_participants activity)%Z ∧
    db' = <[i := set_participants activity (participants ++ [email])]> db.
Proof.
  unfold signup_for_activity.
  destruct (query_first db activity_name) as [[i a]|]; [|done].
  destruct (get_participants a) as [l|] eqn:Hget; [|done].
  destruct (contains email l) eqn:Hin; [done|]. apply contains_false in Hin.
  destruct (Z.geb_spec (Z.of_nat (length l)) (max_participants a)); [done|].
  intros [= <- _]. by exists i, a, l.
Qed.

(** A success of [unregister_from_activity] read backwards. *)
Lemma unregister_Return_inv db activity_name email db' message :
  unregister_from_activity activity_name email db = (db', Return message) →
  ∃ i activity participants,
    query_first db activity_name = Some (i, activity) ∧
    get_participants activity = Some participants ∧
    email ∈ participants ∧
    db' = <[i := set_participants activity (remove email participants)]> db.
Proof.
  unfold unregister_from_activity.
  destruct (query_first db activity_name) as [[i a]|]; [|done].
  destruct (get_participants a) as [l|] eqn:Hget; [|done].
  destruct (contains email l) eqn:Hin; [|done]. apply contains_true in Hin.
  intros [= <- _]. by exists i, a, l.
Qed.

Lemma remove_snoc_fresh email participants :
  email ∉ participants → remove email (participants ++ [email]) = participants.
Proof.
  induction participants as [|p l IH]; intros Hfresh; cbn [app remove].
  - by rewrite decide_True.
  - apply not_elem_of_cons in Hfresh as [Hne Hl].
    rewrite decide_False by done. by rewrite IH.
Qed.

Lemma set_participants_twice activity l1 l2 :
  set_participants (set_participants activity l1) l2
  = set_participants activity l2.
Proof. done. Qed.

Lemma set_participants_same activity l :
  participants_json activity = Json.dumps l → set_participants activity l = activity.
Proof. destruct activity. cbn. by intros ->. Qed.

(** X5. Enrolling twice: once a sign-up has succeeded, the same sign-up
    again is refused with status 400 as a duplicate, and the table stays as
    the first call left it. *)
Theorem enroll_twice db activity_name email i activity participants
    db' message :
  query_first db activity_name = Some (i, activity) →
  roster activity participants →
  text email →
  signup_for_activity activity_name email db = (db', Return message) →
  signup_for_activity activity_name email db'
  = (db', HTTPException 400 (lit "Student is already signed up")).
Proof.
  intros Hq [Hget Htext] Hemail
    (i' & a' & l' & Hq' & Hget' & Hfresh & Hroom & ->)%signup_Return_inv.
  simplify_eq.
  pose proof (query_first_lookup _ _ _ _ Hq) as [_ Hname].
  eapply signup_duplicate.
  - by apply (query_first_insert db activity_name i activity).
  - apply get_set_participants, Forall_app. by rewrite Forall_singleton.
  - apply elem_of_app. right. by apply list_elem_of_singleton.
Qed.

Lemma enroll_twice_witness :
  signup_for_activity (lit "Chess Club") (lit "x@e.edu")
    (signup_for_activity (lit "Chess Club") (lit "x@e.edu") seeded).1
  = ((signup_for_activity (lit "Chess Club") (lit "x@e.edu") seeded).1,
     HTTPException 400 (lit "Student is already signed up")).
Proof.
  eapply (enroll_twice seeded (lit "Chess Club") (lit "x@e.edu") 0 _
            [lit "michael@mergington.edu"; lit "daniel@mergington.edu"]).
  - vm_compute. reflexivity.
  - split; [vm_compute; reflexivity|repeat constructor].
  - reflexivity.
  - vm_compute. reflexivity.
Defined.

(** X6. Enrolling and then withdrawing is a round trip: after a successful
    sign-up the withdrawal of the same identifier succeeds and the roster
    read back is the one before the sign-up; when the column held the
    encoder's own text for that roster, the whole table is restored. *)
Theorem enroll_then_withdraw db activity_name email i activity participants
    db' message :
  query_first db activity_name = Some (i, activity) →
  roster activity participants →
  text email →
  signup_for_activity activity_name email db = (db', Return message) →
  ∃ message' db'',
    unregister_from_activity activity_name email db'
    = (db'', Return message') ∧
    participants_of db'' activity_name = Some participants ∧
    (participants_json activity = Json.dumps participants → db'' = db).
Proof.
  intros Hq [Hget Htext] Hemail
    (i' & a' & l' & Hq' & Hget' & Hfresh & Hroom & ->)%signup_Return_inv.
  simplify_eq.
  pose proof (query_first_lookup _ _ _ _ Hq) as [Hi Hname].
  pose proof (query_first_insert db activity_name i activity
                (set_participants activity (participants ++ [email]))
                Hq Hname) as Hq1.
  eexists _, _. split_and!.
  - eapply unregister_ok; [exact Hq1| |].
    + apply get_set_participants, Forall_app. by rewrite Forall_singleton.
    + apply elem_of_app. right. by apply list_elem_of_singleton.
  - rewrite remove_snoc_fresh, set_participants_twice by done.
    rewrite list_insert_insert_eq. by apply participants_of_insert.
  - intros Hjson.
    rewrite remove_snoc_fresh, set_participants_twice by done.
    rewrite list_insert_insert_eq, set_participants_same by done.
    by apply list_insert_id.
Qed.

Lemma enroll_then_withdraw_witness :
  ∃ message' db'',
    unregister_from_activity (lit "Chess Club") (lit "x@e.edu")
      (signup_for_activity (lit "Chess Club") (lit "x@e.edu") seeded).1
    = (db'', Return message') ∧
    participants_of db'' (lit "Chess Club")
    = Some [lit "michael@mergington.edu"; lit "daniel@mergington.edu"] ∧
    db'' = seeded.
Proof.
  destruct (enroll_then_withdraw seeded (lit "Chess Club") (lit "x@e.edu") 0
              (new_activity 0
                 {| d_name := "Chess Club";
                    d_description :=
                      "Learn strategies and compete in chess tournaments";
                    d_schedule := "Fridays, 3:30 PM - 5:00 PM";
                    d_max_participants := 12;
                    d_participants :=
                      ["michael@mergington.edu"; "daniel@mergington.edu"] |})
              [lit "michael@mergington.edu"; lit "daniel@mergington.edu"]
              (signup_for_activity (lit "Chess Club") (lit "x@e.edu")
                 seeded).1
              (lit "Signed up x@e.edu for Chess Club"))
    as (message' & db'' & Hcall & Hroster & Htable).
  - vm_compute. reflexivity.
  - split; [vm_compute; reflexivity|repeat constructor].
  - reflexivity.
  - vm_compute. reflexivity.
  - exists message', db''. split_and!; [done|done|].
    apply Htable. reflexivity.
Defined.

(** X7. Withdrawing and enrolling again moves a student to the end of the
    list: for a member of a duplicate-free roster within capacity, both
    calls succeed and the roster read back is the old one without the
    identifier, followed by the identifier. *)
Theorem withdraw_then_enroll db activity_name email i activity participants :
  query_first db activity_name = Some (i, activity) →
  roster activity participants →
  NoDup participants →
  (Z.of_nat (length participants) ≤ max_participants activity)%Z →
  email ∈ participants →
  ∃ message1 db1 message2 db2,
    unregister_from_activity activity_name email db = (db1, Return message1) ∧
    signup_for_activity activity_name email db1 = (db2, Return message2) ∧
    participants_of db2 activity_name
    = Some (filter (λ p, p ≠ email) participants ++ [email]).
Proof.
  intros Hq [Hget Htext] Hnd Hlen Hin.
  pose proof (query_first_lookup _ _ _ _ Hq) as [Hi Hname].
  assert (text email) as Hemail.
  { rewrite Forall_forall in Htext. by apply Htext. }
  assert (Forall text (remove email participants)) as Htext'.
  { apply Forall_forall. intros x Hx. rewrite Forall_forall in Htext.
    eapply Htext, elem_of_sublist; [done|apply remove_sublist]. }
  assert (email ∉ remove email participants) as Hgone.
  { rewrite remove_filter by done. intros [Hne _]%list_elem_of_filter. done. }
  pose proof (remove_length email participants Hin) as Hshort.
  pose proof (query_first_insert db activity_name i activity
                (set_participants activity (remove email participants))
                Hq Hname) as Hq1.
  eexists _, _, _, _. split_and!.
  - by eapply unregister_ok.
  - eapply signup_ok; [exact Hq1|by apply get_set_participants|done|].
    cbn [set_participants max_participants]. lia.
  - rewrite list_insert_insert_eq, set_participants_twice.
    rewrite <- remove_filter by done.
    apply participants_of_insert; [done|].
    apply Forall_app. by rewrite Forall_singleton.
Qed.

Lemma withdraw_then_enroll_witness :
  ∃ message1 db1 message2 db2,
    unregister_from_activity (lit "Chess Club") (lit "michael@mergington.edu")
      seeded = (db1, Return message1) ∧
    signup_for_activity (lit "Chess Club") (lit "michael@mergington.edu") db1
    = (db2, Return message2) ∧
    participants_of db2 (lit "Chess Club")
    = Some [lit "daniel@mergington.edu"; lit "michael@mergington.edu"].
Proof.
  apply (withdraw_then_enroll seeded (lit "Chess Club")
           (lit "michael@mergington.edu") 0
           (new_activity 0
              {| d_name := "Chess Club";
                 d_description :=
                   "Learn strategies and compete in chess tournaments";
                 d_schedule := "Fridays, 3:30 PM - 5:00 PM";
                 d_max_participants := 12;
                 d_participants :=
                   ["michael@mergington.edu"; "daniel@mergington.edu"] |})
           [lit "michael@mergington.edu"; lit "daniel@mergington.edu"]).
  - vm_compute. reflexivity.
  - split; [vm_compute; reflexivity|repeat constructor].
  - apply (bool_decide_unpack _). vm_compute. exact I.
  - vm_compute. discriminate.
  - apply (bool_decide_unpack _). vm_compute. exact I.
Defined.

End composition.

(** ** Malformed columns, and tables other than the seeded one *)

Section robustness.

Implicit Types (db : Table) (activity : Activity) (email : str).
Implicit Types (participants : list str) (c : call).




(** X9. The handlers keep the invariants of any table that has them, not
    only of the seeded one: if every row has a decodable text roster within
    capacity and without duplicates, the same holds after any sequence of
    calls with text identifiers. *)
Theorem calls_keep_valid calls db :
  Forall valid db →
  Forall (λ c, text (call_email c)) calls →
  Forall valid (run calls db).
Proof.
  intros Hdb.
  induction calls as [|c calls IH] using rev_ind; [done|].
  intros [Hcalls Hc]%Forall_app. rewrite Forall_singleton in Hc.
  rewrite run_snoc. destruct c as [n e|n e]; cbn [handle call_email] in *.
  - apply signup_valid; [done|by apply IH].
  - apply unregister_valid. by apply IH.
Qed.

Lemma calls_keep_valid_witness :
  Forall valid
    (run [Withdraw (lit "Duo") (lit "a@e.edu");
          Enroll (lit "Duo") (lit "c@e.edu");
          Enroll (lit "Duo") (lit "d@e.edu")] [duo]).
Proof.
  apply (calls_keep_valid _ [duo]).
  - apply Forall_singleton. exists [lit "a@e.edu"; lit "b@e.edu"].
    split_and!.
    + split; [vm_compute; reflexivity|repeat constructor].
    + vm_compute. discriminate.
    + apply (bool_decide_unpack _). vm_compute. exact I.
  - repeat constructor.
Defined.

(** X10. ListActivities reads what Enroll wrote: on a table with distinct
    names whose rows satisfy the invariants, right after a successful
    sign-up the listing has, under the activity's name, the roster before
    the call followed by the new identifier. *)
Theorem listing_after_enroll db activity_name email db' message :
  Forall valid db →
  NoDup (name <$> db) →
  text email →
  signup_for_activity activity_name email db = (db', Return message) →
  ∃ participants listing d,
    participants_of db activity_name = Some participants ∧
    get_activities db' = (db', Some listing) ∧
    listing !! activity_name = Some d ∧
    d !! "participants"%string = Some (VList (participants ++ [email])).
Proof.
  intros Hvalid Hnd Hemail Hcall.
  pose proof (signup_valid db activity_name email Hemail Hvalid) as Hvalid'.
  pose proof (handle_names (Enroll activity_name email) db) as Hnames.
  cbn [handle] in Hnames. rewrite Hcall in Hvalid', Hnames. cbn [fst] in *.
  apply signup_Return_inv in Hcall
    as (i & a & l & Hq & Hget & Hfresh & Hroom & ->).
  pose proof (query_first_lookup _ _ _ _ Hq) as [Hi Hname].
  destruct (Forall_lookup_1 _ _ _ _ Hvalid Hi) as (l0 & [Hl0 Htext] & _).
  assert (l0 = l) as -> by congruence.
  set (a' := set_participants a (l ++ [email])) in *.
  assert (get_participants a' = Some (l ++ [email])) as Hget'.
  { apply get_set_participants, Forall_app. by rewrite Forall_singleton. }
  assert (a' ∈ <[i := a']> db) as Hin.
  { eapply list_elem_of_lookup_2, list_lookup_insert_eq.
    by eapply lookup_lt_Some. }
  assert (Forall (λ activity, is_Some (get_participants activity))
            (<[i := a']> db)) as Hdec.
  { eapply Forall_impl; [exact Hvalid'|].
    intros b (lb & [Hlb _] & _). by exists lb. }
  rewrite <- Hnames in Hnd.
  destruct (comprehension_spec _ ∅ Hdec Hnd) as (m & Hm & Hrows & _).
  destruct (to_dict_Some a' _ Hget') as (d & Hd & _ & _ & _ & Hp & _).
  exists l, m, d. split_and!.
  - unfold participants_of. by rewrite Hq.
  - unfold get_activities. by rewrite Hm.
  - specialize (Hrows a' Hin). rewrite Hd in Hrows.
    replace (name a') with activity_name in Hrows by done.
    destruct (m !! activity_name); by simplify_eq/=.
  - done.
Qed.

Lemma listing_after_enroll_witness :
  ∃ participants listing d,
    participants_of seeded (lit "Art Club") = Some participants ∧
    get_activities
      (signup_for_activity (lit "Art Club") (lit "x@e.edu") seeded).1
    = ((signup_for_activity (lit "Art Club") (lit "x@e.edu") seeded).1,
       Some listing) ∧
    listing !! lit "Art Club" = Some d ∧
    d !! "participants"%string
    = Some (VList (participants ++ [lit "x@e.edu"])).
Proof.
  apply (listing_after_enroll seeded (lit "Art Club") (lit "x@e.edu")
           (signup_for_activity (lit "Art Club") (lit "x@e.edu") seeded).1
           (lit "Signed up x@e.edu for Art Club")).
  - apply seeded_valid.
  - apply seeded_names_NoDup.
  - reflexivity.
  - vm_compute. reflexivity.
Defined.

End robustness.

(** ** The stored column for arbitrary Python strings *)

Module JsonMore.
Import Json JsonFacts.

(** Decide the comparisons of a goal from the arithmetic hypotheses. *)
Local Ltac tests :=
  repeat match goal with
  | |- context [N.eqb ?a ?b] =>
      first [rewrite (proj2 (N.eqb_neq a b)) by lia
            |rewrite (proj2 (N.eqb_eq a b)) by lia]
  | |- context [N.ltb ?a ?b] =>
      first [rewrite (proj2 (N.ltb_lt a b)) by lia
            |rewrite (proj2 (N.ltb_ge a b)) by lia]
  | |- context [N.leb ?a ?b] =>
      first [rewrite (proj2 (N.leb_le a b)) by lia
            |rewrite (proj2 (N.leb_gt a b)) by lia]
  end.

Lemma hexdigit_printable d : d < 16 → printable (hexdigit d).
Proof.
  intros Hd. unfold printable, hexdigit.
  destruct (N.ltb_spec d 10); lia.
Qed.

Lemma u_escape_printable n : Forall printable (u_escape n).
Proof.
  unfold u_escape, hex4.
  repeat (apply Forall_cons; split);
    try (apply hexdigit_printable, N.mod_lt; done);
    try (unfold printable; lia).
  apply Forall_nil_2.
Qed.

Lemma escape_char_printable c : Forall printable (escape_char c).
Proof.
  unfold escape_char, ESCAPE_ASCII.
  destruct (c =? 92) eqn:E92.
  { cbn [orb]. unfold replace, ESCAPE_DCT. rewrite E92.
    repeat constructor; lia. }
  destruct (c =? 34) eqn:E34.
  { cbn [orb]. unfold replace, ESCAPE_DCT. rewrite E92, E34.
    repeat constructor; lia. }
  cbn [orb].
  destruct ((32 <=? c) && (c <=? 126)) eqn:Hprint; cbn [negb].
  { apply andb_true_iff in Hprint as [?%N.leb_le ?%N.leb_le].
    by apply Forall_singleton. }
  unfold replace, ESCAPE_DCT. rewrite E92, E34.
  repeat (match goal with
          | |- context [if ?b then _ else _] => destruct b
          end; try (repeat constructor; lia));
    try apply u_escape_printable.
  cbv zeta. apply Forall_app; split; apply u_escape_printable.
Qed.

Lemma dumps_printable (l : list str) : Forall printable (dumps l).
Proof.
  assert (∀ s, Forall printable (encode_basestring_ascii s)) as Henc.
  { intros s. unfold encode_basestring_ascii.
    apply Forall_cons; split; [unfold printable; lia|].
    apply Forall_app; split; [|apply Forall_singleton; unfold printable; lia].
    induction s as [|c s IH]; [done|]. cbn [escape].
    apply Forall_app; split; [apply escape_char_printable|done]. }
  unfold dumps. apply Forall_cons; split; [unfold printable; lia|].
  apply Forall_app; split; [|apply Forall_singleton; unfold printable; lia].
  induction l as [|x l IH]; [done|].
  destruct l as [|y l]; [apply Henc|].
  rewrite fmap_cons, join_items_cons by done.
  apply Forall_app; split; [apply Henc|].
  repeat (apply Forall_cons; split; [unfold printable; lia|]). exact IH.
Qed.

(** *** Strings with surrogates *)

Lemma high_bounds c : is_high_surrogate c = true ↔ 0xd800 ≤ c ∧ c ≤ 0xdbff.
Proof. unfold is_high_surrogate. by rewrite andb_true_iff, !N.leb_le. Qed.

Lemma low_bounds c : is_low_surrogate c = true ↔ 0xdc00 ≤ c ∧ c ≤ 0xdfff.
Proof. unfold is_low_surrogate. by rewrite andb_true_iff, !N.leb_le. Qed.

Lemma not_high_bounds c : is_high_surrogate c = false ↔ c < 0xd800 ∨ 0xdbff < c.
Proof.
  unfold is_high_surrogate. rewrite andb_false_iff, !N.leb_gt. done.
Qed.

Lemma not_low_bounds c : is_low_surrogate c = false ↔ c < 0xdc00 ∨ 0xdfff < c.
Proof.
  unfold is_low_surrogate. rewrite andb_false_iff, !N.leb_gt. done.
Qed.

(** One unfolding of [scanstring] at the escape of a high surrogate. *)
Lemma scanstring_u_high h1 h2 h3 h4 r uni :
  decode_uXXXX h1 h2 h3 h4 = Some uni →
  is_high_surrogate uni = true →
  scanstring (92 :: 117 :: h1 :: h2 :: h3 :: h4 :: r) =
  match r with
  | b :: u :: r1 =>
      if (b =? 92) && (u =? 117) then
        match r1 with
        | g1 :: g2 :: g3 :: g4 :: r2 =>
            match decode_uXXXX g1 g2 g3 g4 with
            | None => None
            | Some uni2 =>
                if is_low_surrogate uni2 then
                  push (0x10000 + N.lor (N.shiftl (uni - 0xd800) 10)
                                        (uni2 - 0xdc00))
                       (scanstring r2)
                else push uni (scanstring r)
            end
        | _ => None
        end
      else push uni (scanstring r)
  | _ => push uni (scanstring r)
  end.
Proof.
  intros Hd Hs. cbn [scanstring]. cbn [N.eqb Pos.eqb]. rewrite Hd, Hs.
  reflexivity.
Qed.

(** The escape of the next character, seen from a high surrogate: the two
    are joined exactly when the next character is a low surrogate. *)
Lemma scanstring_high_next c d t :
  is_high_surrogate c = true → d ≤ 0x10ffff →
  scanstring (u_escape c ++ escape_char d ++ t) =
  if is_low_surrogate d then
    push (0x10000 + N.lor (N.shiftl (c - 0xd800) 10) (d - 0xdc00))
         (scanstring t)
  else push c (scanstring (escape_char d ++ t)).
Proof.
  intros Hc Hd. pose proof (proj1 (high_bounds c) Hc) as [Hc1 Hc2].
  unfold u_escape at 1, hex4. cbn [app].
  rewrite (scanstring_u_high _ _ _ _ _ c) by (try apply decode_hex4; (done || lia)).
  unfold escape_char, ESCAPE_ASCII.
  destruct (d =? 92) eqn:E92; [apply N.eqb_eq in E92 as ->; reflexivity|].
  destruct (d =? 34) eqn:E34; [apply N.eqb_eq in E34 as ->; reflexivity|].
  cbn [orb].
  destruct ((32 <=? d) && (d <=? 126)) eqn:Hprint; cbn [negb].
  - apply andb_true_iff in Hprint as [Hlo%N.leb_le Hhi%N.leb_le].
    rewrite (proj2 (not_low_bounds d)) by lia.
    cbn [app]. rewrite E92. by destruct t.
  - unfold replace, ESCAPE_DCT. rewrite E92, E34.
    destruct (d =? 8) eqn:E8; [apply N.eqb_eq in E8 as ->; reflexivity|].
    destruct (d =? 12) eqn:E12; [apply N.eqb_eq in E12 as ->; reflexivity|].
    destruct (d =? 10) eqn:E10; [apply N.eqb_eq in E10 as ->; reflexivity|].
    destruct (d =? 13) eqn:E13; [apply N.eqb_eq in E13 as ->; reflexivity|].
    destruct (d =? 9) eqn:E9; [apply N.eqb_eq in E9 as ->; reflexivity|].
    assert (∀ t', d < 0x10000 →
              match u_escape d ++ t' with
              | b :: u :: r1 =>
                  if (b =? 92) && (u =? 117) then
                    match r1 with
                    | g1 :: g2 :: g3 :: g4 :: r2 =>
                        match decode_uXXXX g1 g2 g3 g4 with
                        | None => None
                        | Some uni2 =>
                            if is_low_surrogate uni2 then
                              push (0x10000 + N.lor (N.shiftl (c - 0xd800) 10)
                                                    (uni2 - 0xdc00))
                                   (scanstring r2)
                            else push c (scanstring (u_escape d ++ t'))
                        end
                    | _ => None
                    end
                  else push c (scanstring (u_escape d ++ t'))
              | _ => push c (scanstring (u_escape d ++ t'))
              end
              = if is_low_surrogate d then
                  push (0x10000 + N.lor (N.shiftl (c - 0xd800) 10)
                                        (d - 0xdc00)) (scanstring t')
                else push c (scanstring (u_escape d ++ t'))) as Hu.
    { intros t' Hlt. unfold u_escape, hex4. cbn [app N.eqb Pos.eqb andb].
      by rewrite decode_hex4. }
    destruct (d <? 0x20) eqn:Hctl; [apply Hu; apply N.ltb_lt in Hctl; lia|].
    destruct (d <? 0x10000) eqn:Hbmp; [apply Hu; by apply N.ltb_lt in Hbmp|].
    apply N.ltb_ge in Hbmp.
    destruct (surrogate_pair d Hbmp Hd) as (H1 & H2 & Hhigh & Hlow & Hjoin).
    cbv zeta in *.
    rewrite (proj2 (not_low_bounds d)) by lia.
    set (s1 := N.lor 55296 (N.land (N.shiftr (d - 65536) 10) 1023)) in *.
    set (s2 := N.lor 56320 (N.land (d - 65536) 1023)) in *.
    unfold u_escape at 1, hex4. cbn [app N.eqb Pos.eqb andb].
    rewrite decode_hex4 by done.
    apply high_bounds in Hhigh.
    by rewrite (proj2 (not_low_bounds s1)) by lia.
Qed.

Lemma scanstring_high_last c rest :
  is_high_surrogate c = true →
  scanstring (u_escape c ++ 34 :: rest) = Some ([c], rest).
Proof.
  intros Hc. pose proof (proj1 (high_bounds c) Hc) as [Hc1 Hc2].
  unfold u_escape, hex4. cbn [app].
  rewrite (scanstring_u_high _ _ _ _ _ c)
    by (try apply decode_hex4; (done || lia)).
  by destruct rest.
Qed.

Lemma escape_char_high c :
  is_high_surrogate c = true → escape_char c = u_escape c.
Proof.
  intros [Hc1 Hc2]%high_bounds.
  unfold escape_char, ESCAPE_ASCII, replace, ESCAPE_DCT.
  rewrite !(proj2 (N.eqb_neq c _)) by lia.
  rewrite (proj2 (N.leb_gt c 126)) by lia.
  rewrite (proj2 (N.ltb_ge c 0x20)) by lia.
  rewrite (proj2 (N.ltb_lt c 0x10000)) by lia.
  by rewrite andb_false_r.
Qed.

(** A character that is not a high surrogate is read back as itself,
    whatever follows. *)
Lemma scanstring_escape_char_any c t :
  c ≤ 0x10ffff → is_high_surrogate c = false →
  scanstring (escape_char c ++ t) = push c (scanstring t).
Proof.
  intros Hmax Hnh.
  unfold escape_char, ESCAPE_ASCII.
  destruct (c =? 92) eqn:E92; [apply N.eqb_eq in E92 as ->; reflexivity|].
  destruct (c =? 34) eqn:E34; [apply N.eqb_eq in E34 as ->; reflexivity|].
  cbn [orb].
  destruct ((32 <=? c) && (c <=? 126)) eqn:Hprint; cbn [negb].
  - apply andb_true_iff in Hprint as [Hlo _]. apply N.leb_le in Hlo.
    cbn [app scanstring]. rewrite E34, E92.
    by rewrite (proj2 (N.ltb_ge c 0x20)).
  - unfold replace, ESCAPE_DCT. rewrite E92, E34.
    destruct (c =? 8) eqn:E8; [apply N.eqb_eq in E8 as ->; reflexivity|].
    destruct (c =? 12) eqn:E12; [apply N.eqb_eq in E12 as ->; reflexivity|].
    destruct (c =? 10) eqn:E10; [apply N.eqb_eq in E10 as ->; reflexivity|].
    destruct (c =? 13) eqn:E13; [apply N.eqb_eq in E13 as ->; reflexivity|].
    destruct (c =? 9) eqn:E9; [apply N.eqb_eq in E9 as ->; reflexivity|].
    destruct (c <? 0x20) eqn:Hctl.
    { apply N.ltb_lt in Hctl. unfold u_escape, hex4. cbn [app].
      apply scanstring_u; [apply decode_hex4; lia|done]. }
    destruct (c <? 0x10000) eqn:Hbmp.
    { apply N.ltb_lt in Hbmp. unfold u_escape, hex4. cbn [app].
      apply scanstring_u; [by apply decode_hex4|done]. }
    apply N.ltb_ge in Hbmp.
    destruct (surrogate_pair c Hbmp Hmax) as (H1 & H2 & Hhigh & Hlow & Hjoin).
    cbv zeta. unfold u_escape, hex4. cbn [app].
    erewrite scanstring_pair;
      [|by apply decode_hex4|by apply decode_hex4|done|done].
    by rewrite Hjoin.
Qed.

Lemma normalize_cons2 c d s :
  normalize (c :: d :: s) =
  if is_high_surrogate c && is_low_surrogate d then
    0x10000 + N.lor (N.shiftl (c - 0xd800) 10) (d - 0xdc00) :: normalize s
  else c :: normalize (d :: s).
Proof. reflexivity. Qed.

Lemma normalize_not_high c s :
  is_high_surrogate c = false → normalize (c :: s) = c :: normalize s.
Proof. intros Hc. cbn [normalize]. rewrite Hc. by destruct s. Qed.

(** A quoted Python string is read back as its normal form. *)
Lemma scanstring_escape_normalize s : ∀ rest,
  pystr s → scanstring (escape s ++ 34 :: rest) = Some (normalize s, rest).
Proof.
  induction s as [s IH] using (induction_ltof1 _ (@length N)).
  unfold ltof in IH. intros rest Hs.
  destruct s as [|c s1]; [reflexivity|].
  apply Forall_cons in Hs as [Hc Hs1].
  destruct (is_high_surrogate c) eqn:Hhigh.
  - cbn [escape]. rewrite escape_char_high by done.
    destruct s1 as [|d s2].
    { cbn [escape app]. rewrite app_nil_r. by apply scanstring_high_last. }
    apply Forall_cons in Hs1 as [Hd Hs2].
    cbn [escape]. rewrite <- !app_assoc.
    rewrite scanstring_high_next by done.
    rewrite normalize_cons2, Hhigh. cbn [andb].
    destruct (is_low_surrogate d).
    + rewrite IH; [done|cbn; lia|done].
    + rewrite !app_assoc. change (escape_char d ++ escape s2) with (escape (d :: s2)).
      rewrite IH; [done|cbn; lia|by apply Forall_cons].
  - cbn [escape]. rewrite <- app_assoc.
    rewrite scanstring_escape_char_any by done.
    rewrite IH; [|cbn; lia|done].
    by rewrite normalize_not_high.
Qed.

(** On text the normal form is the string itself. *)
Lemma normalize_text s : text s → normalize s = s.
Proof.
  unfold text. induction s as [|c s IH]; [done|].
  cbn [forallb]. intros [Hc Hs]%andb_true_iff.
  rewrite normalize_not_high by (by apply scalar_not_high).
  by rewrite IH.
Qed.

Lemma normalize_length s : (length (normalize s) ≤ length s)%nat.
Proof.
  induction s as [s IH] using (induction_ltof1 _ (@length N)).
  unfold ltof in IH. destruct s as [|c [|d s2]]; [done..|].
  rewrite normalize_cons2.
  destruct (is_high_surrogate c && is_low_surrogate d); cbn [length].
  - specialize (IH s2). cbn [length] in IH. lia.
  - specialize (IH (d :: s2)). cbn [length] in IH. lia.
Qed.

Lemma normalize_pystr s : pystr s → pystr (normalize s).
Proof.
  induction s as [s IH] using (induction_ltof1 _ (@length N)).
  unfold ltof in IH. destruct s as [|c [|d s2]]; [done..|].
  intros [Hc [Hd Hs2]%Forall_cons]%Forall_cons. rewrite normalize_cons2.
  destruct (is_high_surrogate c && is_low_surrogate d) eqn:Hpair.
  - apply andb_true_iff in Hpair as [[? ?]%high_bounds [? ?]%low_bounds].
    apply Forall_cons; split; [|apply IH; [cbn; lia|done]].
    rewrite lor_shiftl_low by (change (2 ^ 10) with 1024; lia).
    change (2 ^ 10) with 1024. lia.
  - apply Forall_cons; split; [done|].
    apply IH; [cbn; lia|by apply Forall_cons].
Qed.

(** The array loop over the items the encoder joined, for any reading [f]
    of the items. *)
Lemma JSONArray_loop_join_with (f : str → str) l : ∀ fuel rest,
  l ≠ [] →
  Forall (λ x, ∀ rest', scanstring (escape x ++ 34 :: rest')
                         = Some (f x, rest')) l →
  (length l ≤ fuel)%nat →
  JSONArray_loop fuel (join_items (encode_basestring_ascii <$> l) ++ 93 :: rest)
  = Some (f <$> l, rest).
Proof.
  induction l as [|x l IH]; intros fuel rest Hne Hall Hfuel; [done|].
  apply Forall_cons in Hall as [Hx Hall].
  destruct fuel as [|fuel]; [cbn in Hfuel; lia|].
  cbn [length] in Hfuel.
  destruct l as [|y l'].
  - cbn [fmap list_fmap join_items]. unfold encode_basestring_ascii.
    cbn [app JSONArray_loop N.eqb Pos.eqb].
    rewrite <- app_assoc. cbn [app]. rewrite Hx. reflexivity.
  - rewrite fmap_cons, join_items_cons by done.
    unfold encode_basestring_ascii at 1.
    cbn [app JSONArray_loop N.eqb Pos.eqb].
    rewrite <- !app_assoc. cbn [app]. rewrite Hx.
    rewrite skip_ws_no_ws by done. cbn [N.eqb Pos.eqb].
    assert (skip_ws (32 :: join_items (encode_basestring_ascii <$> y :: l')
                       ++ 93 :: rest)
            = join_items (encode_basestring_ascii <$> y :: l') ++ 93 :: rest)
      as ->.
    { destruct l'; reflexivity. }
    rewrite IH; [done|done|done|cbn [length] in *; lia].
Qed.

(** [json.loads(json.dumps(l))] on any list of Python strings. *)
Lemma loads_dumps_normalize l :
  Forall pystr l → loads (dumps l) = Some (normalize <$> l).
Proof.
  intros Hall. unfold loads, dumps.
  rewrite skip_ws_no_ws by done. cbn [N.eqb Pos.eqb].
  destruct l as [|x l']; [reflexivity|].
  unfold JSONArray.
  assert (∃ t, join_items (encode_basestring_ascii <$> x :: l') ++ [93]
               = 34 :: t) as [t Ht].
  { destruct l'; eexists; reflexivity. }
  pose proof (join_items_length (x :: l') [93]) as Hlen.
  rewrite Ht in Hlen |- *.
  rewrite skip_ws_no_ws by done. cbn [N.eqb Pos.eqb].
  rewrite <- Ht. rewrite (JSONArray_loop_join_with normalize); [done|done| |].
  - eapply Forall_impl; [exact Hall|]. intros s Hs rest'.
    by apply scanstring_escape_normalize.
  - by rewrite Ht.
Qed.

End JsonMore.

(** X11. Whatever list is written, the roster column holds printable ASCII
    only (code points 32 to 126): every other character of an identifier is
    stored as an escape. *)
Theorem roster_column_is_ascii (self : Activity) (participants : list str) :
  Forall printable (participants_json (set_participants self participants)).
Proof. apply JsonMore.dumps_printable. Qed.

Lemma text_pystr s : text s → pystr s.
Proof.
  unfold text, pystr. induction s as [|c s IH]; [done|].
  cbn [forallb]. intros [Hc Hs]%andb_true_iff.
  apply Forall_cons; split; [|by apply IH].
  unfold is_scalar in Hc. apply andb_true_iff in Hc as [Hc _].
  by apply N.leb_le.
Qed.

(** X12. [set_participants] never writes a column that [get_participants]
    cannot read: for any list of Python strings the read-back succeeds and
    gives the list with each string in normal form, that is, with every
    high surrogate directly followed by a low one joined into one code
    point; the number of entries is kept, and a list of text comes back
    unchanged. *)
Theorem stored_roster_reads_back (self : Activity) (participants : list str) :
  Forall pystr participants →
  get_participants (set_participants self participants)
  = Some (normalize <$> participants) ∧
  length (normalize <$> participants) = length participants ∧
  (Forall text participants → normalize <$> participants = participants).
Proof.
  intros Hpy. split_and!.
  - by apply JsonMore.loads_dumps_normalize.
  - apply length_fmap.
  - intros Htext. induction Htext as [|s l Hs Hl IH]; [done|].
    apply Forall_cons in Hpy as [_ Hpy].
    rewrite fmap_cons, JsonMore.normalize_text by done. by rewrite IH.
Qed.

Lemma stored_roster_reads_back_witness :
  get_participants
    (set_participants solo [[0xd83d; 0xde00]; [0xde00; 0xd83d]; lit "a@e.edu"])
  = Some [[0x1f600]; [0xde00; 0xd83d]; lit "a@e.edu"].
Proof.
  refine (proj1 (stored_roster_reads_back solo
                   [[0xd83d; 0xde00]; [0xde00; 0xd83d]; lit "a@e.edu"] _)).
  unfold pystr.
  repeat first [apply Forall_nil_2 | exact (text_pystr _ (text_lit _))
               | apply Forall_cons; split | lia].
Defined.

Section any_identifier.

Implicit Types (db : Table) (activity : Activity) (email : str).

Lemma within_capacity_set activity participants :
  Forall pystr participants →
  (Z.of_nat (length participants) ≤ max_participants activity)%Z →
  within_capacity (set_participants activity participants).
Proof.
  intros Hpy Hlen. exists (normalize <$> participants). split_and!.
  - by apply JsonMore.loads_dumps_normalize.
  - apply Forall_fmap. eapply Forall_impl; [exact Hpy|].
    intros s Hs. by apply JsonMore.normalize_pystr.
  - by rewrite length_fmap.
Qed.

Lemma valid_within_capacity activity : valid activity → within_capacity activity.
Proof.
  intros (l & [Hget Htext] & Hlen & _). exists l. split_and!; [done| |done].
  eapply Forall_impl; [exact Htext|]. apply text_pystr.
Qed.

Lemma handle_within_capacity c db :
  pystr (call_email c) →
  Forall within_capacity db → Forall within_capacity (handle c db).1.
Proof.
  intros Hemail Hdb.
  destruct c as [n e|n e]; cbn [handle call_email] in *;
    unfold signup_for_activity, unregister_from_activity;
    (destruct (query_first db n) as [[i a]|] eqn:Hq; [|done]);
    apply query_first_lookup in Hq as [Hi _];
    destruct (Forall_lookup_1 _ _ _ _ Hdb Hi) as (l & Hl & Hpy & Hlen);
    rewrite Hl.
  - destruct (contains e l); [done|].
    destruct (Z.geb_spec (Z.of_nat (length l)) (max_participants a)); [done|].
    cbn [fst]. apply Forall_insert; [done|].
    apply within_capacity_set.
    + apply Forall_app. by rewrite Forall_singleton.
    + rewrite length_app. cbn. lia.
  - destruct (contains e l) eqn:Hin; [|done]. apply contains_true in Hin.
    cbn [negb fst]. apply Forall_insert; [done|].
    apply within_capacity_set.
    + apply Forall_forall. intros x Hx. rewrite Forall_forall in Hpy.
      eapply Hpy, elem_of_sublist; [done|apply remove_sublist].
    + pose proof (remove_length e l Hin). cbn [set_participants max_participants]. lia.
Qed.

End any_identifier.

(** X13. The capacity bound does not depend on the identifiers being text:
    in every state reached from the seeded table by calls with arbitrary
    Python strings, every roster can be read and holds at most
    [max_participants] entries. *)
Theorem capacity_for_any_identifier (db : Table) :
  reachable_any db →
  ∀ activity, activity ∈ db →
    ∃ participants,
      get_participants activity = Some participants ∧
      (Z.of_nat (length participants) ≤ max_participants activity)%Z.
Proof.
  intros (calls & Hcalls & ->).
  assert (Forall within_capacity (run calls seeded)) as Hall.
  { induction calls as [|c calls IH] using rev_ind.
    - eapply Forall_impl; [apply seeded_valid|]. apply valid_within_capacity.
    - apply Forall_app in Hcalls as [Hcalls Hc].
      rewrite Forall_singleton in Hc. rewrite run_snoc.
      apply handle_within_capacity; [done|by apply IH]. }
  intros a Ha. rewrite Forall_forall in Hall.
  destruct (Hall a Ha) as (l & Hl & _ & Hlen). eauto.
Qed.

Lemma capacity_for_any_identifier_witness :
  reachable_any
    (run [Enroll (lit "Chess Club") [0xd83d; 0xde00];
          Enroll (lit "Chess Club") [0xd83d; 0xde00]] seeded) ∧
  ∀ activity,
    activity ∈ run [Enroll (lit "Chess Club") [0xd83d; 0xde00];
                    Enroll (lit "Chess Club") [0xd83d; 0xde00]] seeded →
    ∃ participants,
      get_participants activity = Some participants ∧
      (Z.of_nat (length participants) ≤ max_participants activity)%Z.
Proof.
  assert (reachable_any
            (run [Enroll (lit "Chess Club") [0xd83d; 0xde00];
                  Enroll (lit "Chess Club") [0xd83d; 0xde00]] seeded))
    as Hreach.
  { eexists. split; [|reflexivity]. cbn [call_email]. unfold pystr.
    repeat first [apply Forall_nil_2 | apply Forall_cons; split | lia]. }
  split; [exact Hreach|].
  exact (capacity_for_any_identifier _ Hreach).
Defined.

(** Outside text the duplicate check compares the identifier as received
    with the normal forms that were stored, so the same surrogate pair is
    accepted twice; this is why [reachable] takes text identifiers. *)
Remark surrogate_pair_enrolled_twice :
  participants_of
    (run [Enroll (lit "Chess Club") [0xd83d; 0xde00];
          Enroll (lit "Chess Club") [0xd83d; 0xde00]] seeded)
    (lit "Chess Club")
  = Some [lit "michael@mergington.edu"; lit "daniel@mergington.edu";
          [0x1f600]; [0x1f600]].
Proof. vm_compute. reflexivity. Qed.

(** ** Start-up and independent calls *)

(** X14. Start-up keeps a consistent table consistent: if the rows satisfy
    the invariants and carry distinct names, so do the rows after
    [init_db], whether it seeded the table or left it alone; a table that
    already has a row is left alone. *)
Theorem startup_keeps_invariants (db : Table) :
  Forall valid db →
  NoDup (name <$> db) →
  Forall valid (init_db db) ∧
  NoDup (name <$> init_db db) ∧
  (db ≠ [] → init_db db = db).
Proof.
  intros Hvalid Hnd. destruct db as [|a db].
  - split_and!; [apply seeded_valid|apply seeded_names_NoDup|done].
  - done.
Qed.

Lemma startup_keeps_invariants_witness :
  Forall valid (init_db []) ∧
  NoDup (name <$> init_db []) ∧
  (@nil Activity ≠ [] → init_db [] = []).
Proof.
  apply (startup_keeps_invariants []); constructor.
Defined.

Section independence.

Implicit Types (db : Table) (activity : Activity) (c : call).

(** Each handler is its existence check followed by [written]. *)
Lemma handle_written c db :
  handle c db =
  match query_first db (call_name c) with
  | None => (db, HTTPException 404 (lit "Activity not found"))
  | Some (i, activity) =>
      (match (written c activity).1 with
       | Some activity' => <[i := activity']> db
       | None => db
       end, (written c activity).2)
  end.
Proof.
  destruct c as [n e|n e]; cbn [handle call_name];
    unfold signup_for_activity, unregister_from_activity, written;
    (destruct (query_first db n) as [[i a]|]; [|done]);
    (destruct (get_participants a) as [l|]; [|done]);
    (destruct (contains e l); cbn [negb]; [try reflexivity|try reflexivity]);
    by destruct (Z.of_nat (length l) >=? max_participants a)%Z.
Qed.

Lemma written_name c activity activity' :
  (written c activity).1 = Some activity' → name activity' = name activity.
Proof.
  unfold written. destruct (get_participants activity) as [l|]; [|done].
  destruct c; repeat case_match; cbn [fst]; intros [= <-]; done.
Qed.

(** X15. Calls to different activities are independent: carried out in
    either order they leave the same table, and each gets the answer it
    would have got alone. *)
Theorem calls_commute c1 c2 db :
  call_name c1 ≠ call_name c2 →
  (handle c2 (handle c1 db).1).1 = (handle c1 (handle c2 db).1).1 ∧
  (handle c1 (handle c2 db).1).2 = (handle c1 db).2 ∧
  (handle c2 (handle c1 db).1).2 = (handle c2 db).2.
Proof.
  intros Hne.
  rewrite (handle_written c1 (handle c2 db).1).
  rewrite (handle_written c2 (handle c1 db).1).
  rewrite !handle_other by done.
  rewrite (handle_written c1 db), (handle_written c2 db).
  destruct (query_first db (call_name c1)) as [[i a1]|] eqn:Hq1;
    destruct (query_first db (call_name c2)) as [[j a2]|] eqn:Hq2;
    cbn [fst snd]; try done.
  apply query_first_lookup in Hq1 as [Hi Hn1].
  apply query_first_lookup in Hq2 as [Hj Hn2].
  assert (i ≠ j) as Hij by (intros ->; congruence).
  destruct (written c1 a1).1, (written c2 a2).1; split_and!; try done.
  by rewrite list_insert_insert_ne.
Qed.

Lemma calls_commute_witness :
  (handle (Withdraw (lit "Math Club") (lit "james@mergington.edu"))
     (handle (Enroll (lit "Chess Club") (lit "x@e.edu")) seeded).1).1
  = (handle (Enroll (lit "Chess Club") (lit "x@e.edu"))
       (handle (Withdraw (lit "Math Club") (lit "james@mergington.edu"))
          seeded).1).1.
Proof.
  refine (proj1 (calls_commute
                   (Enroll (lit "Chess Club") (lit "x@e.edu"))
                   (Withdraw (lit "Math Club") (lit "james@mergington.edu"))
                   seeded _)).
  apply (bool_decide_unpack _). vm_compute. exact I.
Defined.

End independence.
